(** * pynbody.analysis.decomp : kinematic bulge/disk/halo decomposition

    A shallow embedding of [src/pynbody/analysis/decomp.py] and the
    properties its specification states about it.

    Numbers.  numpy's float64 values are modelled by [float]: a canonical
    rational, the two infinities, or NaN.  Comparisons follow IEEE 754 on
    that carrier (every comparison with NaN is false); arithmetic is exact
    on the finite part, so rounding and signed zeros are not represented.

    State.  The snapshot is a record of per-particle columns held in a
    finite map from field names to arrays; [decomp] is written in a small
    state-and-exception monad over it, statement by statement.

    Collaborators.  The parts of pynbody, numpy and scipy that [decomp]
    calls but that do not live in [decomp.py] are gathered in the record
    [Collaborators]; theorems state the contract they rely on as explicit
    hypotheses. *)

From Stdlib Require Import QArith Qcanon ZArith Lia Lqa.
From stdpp Require Import base numbers gmap strings list sorting.

Local Open Scope Z_scope.

(* ================================================================== *)
(** * Floating-point values *)
(* ================================================================== *)

Inductive float : Type :=
| NaN
| NInf
| Fin (q : Qc)
| PInf.

Definition Qc0 : Qc := Q2Qc 0.
Definition Qc1 : Qc := Q2Qc 1.

(** [F n d] is the literal n/d. *)
Definition F (n : Z) (d : positive) : float := Fin (Q2Qc (n # d)).
Definition fzero : float := Fin Qc0.
Definition fone : float := Fin Qc1.

Definition Qcltb (x y : Qc) : bool :=
  match (x ?= y)%Qc with Lt => true | _ => false end.
Definition Qceqb (x y : Qc) : bool :=
  match (x ?= y)%Qc with Eq => true | _ => false end.

(** [a < b] *)
Definition ltb (a b : float) : bool :=
  match a, b with
  | NaN, _ | _, NaN => false
  | NInf, NInf => false
  | NInf, _ => true
  | Fin x, Fin y => Qcltb x y
  | Fin _, PInf => true
  | Fin _, NInf => false
  | PInf, _ => false
  end.

(** [a > b] *)
Definition gtb (a b : float) : bool := ltb b a.

(** [a == b] *)
Definition feqb (a b : float) : bool :=
  match a, b with
  | NInf, NInf | PInf, PInf => true
  | Fin x, Fin y => Qceqb x y
  | _, _ => false
  end.

(** [a <= b] *)
Definition leb (a b : float) : bool := ltb a b || feqb a b.

Definition is_nan (a : float) : bool :=
  match a with NaN => true | _ => false end.


Definition fneg (a : float) : float :=
  match a with
  | NaN => NaN
  | NInf => PInf
  | Fin x => Fin (- x)%Qc
  | PInf => NInf
  end.

Definition fadd (a b : float) : float :=
  match a, b with
  | NaN, _ | _, NaN => NaN
  | PInf, NInf | NInf, PInf => NaN
  | PInf, _ | _, PInf => PInf
  | NInf, _ | _, NInf => NInf
  | Fin x, Fin y => Fin (x + y)%Qc
  end.

Definition fsub (a b : float) : float := fadd a (fneg b).

(** The sign of the infinite product [inf * y]. *)
Definition inf_times (pos : bool) (y : Qc) : float :=
  if Qceqb y Qc0 then NaN
  else if xorb pos (Qcltb Qc0 y) then NInf else PInf.

Definition fmul (a b : float) : float :=
  match a, b with
  | NaN, _ | _, NaN => NaN
  | Fin x, Fin y => Fin (x * y)%Qc
  | PInf, PInf | NInf, NInf => PInf
  | PInf, NInf | NInf, PInf => NInf
  | PInf, Fin y | Fin y, PInf => inf_times true y
  | NInf, Fin y | Fin y, NInf => inf_times false y
  end.

(** numpy array division: a zero divisor gives an infinity or NaN (with a
    RuntimeWarning), it never raises. *)
Definition fdiv (a b : float) : float :=
  match a, b with
  | NaN, _ | _, NaN => NaN
  | Fin x, Fin y =>
      if Qceqb y Qc0 then
        (if Qceqb x Qc0 then NaN else if Qcltb Qc0 x then PInf else NInf)
      else Fin (x / y)%Qc
  | Fin _, (PInf | NInf) => fzero
  | (PInf | NInf), (PInf | NInf) => NaN
  | PInf, Fin y => if Qcltb y Qc0 then NInf else PInf
  | NInf, Fin y => if Qcltb y Qc0 then PInf else NInf
  end.

Declare Scope float_scope.
Delimit Scope float_scope with fl.
Bind Scope float_scope with float.
Infix "<?" := ltb : float_scope.
Infix ">?" := gtb : float_scope.
Infix "<=?" := leb : float_scope.
Infix "+" := fadd : float_scope.
Infix "-" := fsub : float_scope.
Infix "*" := fmul : float_scope.
Infix "/" := fdiv : float_scope.

(* ================================================================== *)
(** * numpy reductions and masks *)
(* ================================================================== *)

(** [np.maximum] / [np.minimum] on two scalars: NaN propagates. *)
Definition fmax (a b : float) : float :=
  if is_nan a || is_nan b then NaN else if ltb a b then b else a.
Definition fmin (a b : float) : float :=
  if is_nan a || is_nan b then NaN else if ltb b a then b else a.

(** [a.max()] and [a.min()]: ValueError on an empty array, modelled by
    [None]. *)
Definition amax (l : list float) : option float :=
  match l with
  | [] => None
  | x :: l' => Some (foldr fmax x l')
  end.
Definition amin (l : list float) : option float :=
  match l with
  | [] => None
  | x :: l' => Some (foldr fmin x l')
  end.

Definition fsum (l : list float) : float := foldr fadd fzero l.

Definition of_nat (n : nat) : float := Fin (Q2Qc (inject_Z (Z.of_nat n))).

(** [np.mean]: the sum over the count; over an empty selection this is
    0/0 = NaN (numpy warns, it does not raise). *)
Definition mean (l : list float) : float := fdiv (fsum l) (of_nat (length l)).

(** [a[np.where(mask)]]: the entries selected by a boolean mask. *)
Fixpoint select {A} (mask : list bool) (l : list A) : list A :=
  match mask, l with
  | m :: mask', x :: l' => if m then x :: select mask' l' else select mask' l'
  | _, _ => []
  end.

(** [a[np.where(mask)] = v]: masked assignment, in place. *)
Fixpoint assign_where {A} (mask : list bool) (v : A) (l : list A) : list A :=
  match mask, l with
  | m :: mask', x :: l' => (if m then v else x) :: assign_where mask' v l'
  | _, _ => l
  end.

(** Boolean arrays: [*] is conjunction and [+] is disjunction. *)
Definition mask_and (a b : list bool) : list bool := zip_with andb a b.
Definition mask_or (a b : list bool) : list bool := zip_with orb a b.

(** Stable insertion sort, as [np.sort] orders NaN-free data. *)
Fixpoint insert_sorted (x : float) (l : list float) : list float :=
  match l with
  | [] => [x]
  | y :: l' => if ltb y x then y :: insert_sorted x l' else x :: l
  end.
Definition fsort (l : list float) : list float := foldr insert_sorted [] l.

(** [np.median]: NaN when the data holds a NaN or is empty, else the middle
    value, or the mean of the two middle values. *)
Definition median (l : list float) : float :=
  if existsb is_nan l then NaN
  else
    let s := fsort l in
    let n := length s in
    if Nat.even n
    then mean [nth (n / 2 - 1)%nat s NaN; nth (n / 2)%nat s NaN]
    else nth (n / 2)%nat s NaN.

(* ================================================================== *)
(** * Units and arrays *)
(* ================================================================== *)

(** Modelled from the spec: the unit system ("conversion of potential
    energy into the kinetic-energy unit basis", with "unit mismatch" as its
    one failure).  A unit is a positive rational scale with the exponents
    of length, mass and time; two units convert into each other exactly
    when the exponents agree. *)
Record Unit := {
  u_num : positive;
  u_den : positive;
  u_length : Z;
  u_mass : Z;
  u_time : Z
}.

#[global] Instance Unit_eq_dec : EqDecision Unit.
Proof. solve_decision. Defined.

Definition no_unit : Unit :=
  {| u_num := 1; u_den := 1; u_length := 0; u_mass := 0; u_time := 0 |}.

Definition same_dimension (u v : Unit) : bool :=
  (u_length u =? u_length v) && (u_mass u =? u_mass v) && (u_time u =? u_time v).

(** [u.ratio(v)]: the factor that takes a value in [u] to its value in [v]. *)
Definition ratio (u v : Unit) : option float :=
  if same_dimension u v
  then Some (F (Z.pos (u_num u * u_den v)) (u_den u * u_num v))
  else None.

Definition unit_div (u v : Unit) : Unit :=
  {| u_num := u_num u * u_den v; u_den := u_den u * u_num v;
     u_length := u_length u - u_length v;
     u_mass := u_mass u - u_mass v;
     u_time := u_time u - u_time v |}.

(** A [SimArray]: one float per particle (or per bin) and the unit. *)
Record SimArray := { data : list float; units : Unit }.

Inductive exn : Type :=
| UnitsException
| KeyError (name : string)
| ValueError
| IndexError
| ZeroDivisionError
| CollaboratorError (who : string).

(** [a.in_units(u)]: a converted copy. *)
Definition in_units (a : SimArray) (u : Unit) : exn + SimArray :=
  match ratio (units a) u with
  | Some r => inr {| data := map (fun x => fmul x r) (data a); units := u |}
  | None => inl UnitsException
  end.

(** Element-wise arithmetic; the result carries the unit of the left
    operand, as pynbody does for operands of one unit. *)
Definition arr_add (a b : SimArray) : SimArray :=
  {| data := zip_with fadd (data a) (data b); units := units a |}.
Definition arr_sub_scalar (a : SimArray) (c : float) : SimArray :=
  {| data := map (fun x => fsub x c) (data a); units := units a |}.
Definition arr_div (a b : SimArray) : SimArray :=
  {| data := zip_with fdiv (data a) (data b);
     units := unit_div (units a) (units b) |}.

(* ================================================================== *)
(** * The snapshot *)
(* ================================================================== *)

Inductive family : Type := star | gas | dm.

Definition is_star (f : family) : bool :=
  match f with star => true | _ => false end.

Definition vec3 : Type := float * float * float.

(** The particle set: the family of every particle, the coordinate frame
    (positions and velocities), the named per-particle arrays ([mass],
    [phi], [eps] and whatever has been attached), and the integer arrays
    that live on the star family only ([decomp]). *)
Record SimSnap := {
  families : list family;
  pos : list vec3;
  vel : list vec3;
  arrays : gmap string SimArray;
  star_arrays : gmap string (list Z)
}.

Definition set_frame (pv : list vec3 * list vec3) (h : SimSnap) : SimSnap :=
  {| families := families h; pos := pv.1; vel := pv.2;
     arrays := arrays h; star_arrays := star_arrays h |}.
Definition set_arrays (m : gmap string SimArray) (h : SimSnap) : SimSnap :=
  {| families := families h; pos := pos h; vel := vel h;
     arrays := m; star_arrays := star_arrays h |}.
Definition set_star_arrays (m : gmap string (list Z)) (h : SimSnap) : SimSnap :=
  {| families := families h; pos := pos h; vel := vel h;
     arrays := arrays h; star_arrays := m |}.

(** [len(h)] *)
Definition len (h : SimSnap) : Z := Z.of_nat (length (families h)).

Definition star_mask (h : SimSnap) : list bool := map is_star (families h).

(** [h.star[name]]: the star family's view of a per-particle array. *)
Definition star_view {A} (h : SimSnap) (l : list A) : list A :=
  select (star_mask h) l.

(** [h[filter]]: the sub-snapshot of the particles a filter selects. *)
Definition subsnap (mask : list bool) (h : SimSnap) : SimSnap :=
  {| families := select mask (families h);
     pos := select mask (pos h);
     vel := select mask (vel h);
     arrays := (fun a => {| data := select mask (data a); units := units a |})
                 <$> arrays h;
     star_arrays := select (star_view h mask) <$> star_arrays h |}.

(* ================================================================== *)
(** * State and exceptions *)
(* ================================================================== *)

Inductive level : Type := INFO | WARNING.

(** One [logger] call: level, format string, and the value formatted in. *)
Record LogRecord := { lvl : level; fmt : string; args : list float }.

Record World := { sim : SimSnap; logged : list LogRecord }.

(** A computation reads and writes the world and either returns or
    raises; what it wrote before raising stays written. *)
Definition M (A : Type) : Type := World -> (exn + A) * World.

Definition ret {A} (a : A) : M A := fun w => (inr a, w).
Definition raise {A} (e : exn) : M A := fun w => (inl e, w).
Definition bind {A B} (m : M A) (k : A -> M B) : M B :=
  fun w => match m w with
           | (inr a, w') => k a w'
           | (inl e, w') => (inl e, w')
           end.
Definition lift {A} (r : exn + A) : M A := fun w => (r, w).
Definition lift_opt {A} (e : exn) (o : option A) : M A :=
  fun w => (match o with Some a => inr a | None => inl e end, w).

Notation "x <~ m ;; k" := (bind m (fun x => k))
  (at level 100, m at next level, right associativity).
Notation "m ;;; k" := (bind m (fun _ => k))
  (at level 100, right associativity).

Definition get_sim : M SimSnap := fun w => (inr (sim w), w).
Definition put_sim (h : SimSnap) : M unit :=
  fun w => (inr tt, {| sim := h; logged := logged w |}).

(** [h[name]] *)
Definition getitem (name : string) : M SimArray :=
  h <~ get_sim ;; lift_opt (KeyError name) (arrays h !! name).

(** [h[name] = a]: the contents of [a] are copied into the snapshot's own
    array of that name (created when absent), so a later in-place change
    of [a] does not reach [h[name]]. *)
Definition setitem (name : string) (a : SimArray) : M unit :=
  h <~ get_sim ;; put_sim (set_arrays (<[name := a]> (arrays h)) h).

Definition log_call (l : level) (f : string) (xs : list float) : M unit :=
  fun w => (inr tt, {| sim := sim w;
                       logged := logged w ++ [{| lvl := l; fmt := f; args := xs |}] |}).
Definition logger_info := log_call INFO.
Definition logger_warning := log_call WARNING.

(* ================================================================== *)
(** * scipy.interpolate.interp1d *)
(* ================================================================== *)

(** [interp1d(x, y, bounds_error=False)]: kind ['linear'], fill value NaN,
    [assume_sorted=False].  The constructor sorts the points by [x] with a
    stable sort; a call locates the segment with [searchsorted], clips the
    index into [1, len-1], evaluates the chord, and overwrites with NaN
    whatever lies outside [x[0], x[-1]]. *)
Record interp1d := { ix : list float; iy : list float }.

Fixpoint insert_point (p : float * float) (l : list (float * float))
  : list (float * float) :=
  match l with
  | [] => [p]
  | q :: l' => if ltb q.1 p.1 then q :: insert_point p l' else p :: l
  end.
Definition sort_points (l : list (float * float)) : list (float * float) :=
  foldr insert_point [] l.

Definition interp1d_new (x y : list float) : exn + interp1d :=
  if negb (length x =? length y)%nat then inl ValueError
  else if (length x =? 0)%nat then inl ValueError
  else let s := sort_points (zip x y) in
       inr {| ix := s.*1; iy := s.*2 |}.

(** [np.searchsorted(xs, v)] (side ['left']) on ascending [xs]: the number
    of leading entries below [v]. *)
Fixpoint searchsorted (xs : list float) (v : float) : nat :=
  match xs with
  | [] => 0
  | x :: xs' => if ltb x v then S (searchsorted xs' v) else 0
  end.

Definition interp1d_call (f : interp1d) (x_new : float) : float :=
  let n := length (ix f) in
  let hi := Nat.min (Nat.max (searchsorted (ix f) x_new) 1) (n - 1) in
  let lo := (hi - 1)%nat in
  let x_lo := nth lo (ix f) NaN in
  let x_hi := nth hi (ix f) NaN in
  let y_lo := nth lo (iy f) NaN in
  let y_hi := nth hi (iy f) NaN in
  let slope := fdiv (fsub y_hi y_lo) (fsub x_hi x_lo) in
  let y_new := fadd (fmul slope (fsub x_new x_lo)) y_lo in
  if ltb x_new (nth 0 (ix f) NaN) || gtb x_new (nth (n - 1) (ix f) NaN)
  then NaN else y_new.

(* ================================================================== *)
(** * Collaborators *)
(* ================================================================== *)

(** Modelled from the spec: the alignment gate ("scoped resource ...
    reverted on all exit paths").  A transformation is the pair of maps
    that takes the frame (positions, velocities) into the aligned frame
    and back. *)
Record Transformation := {
  forward : list vec3 * list vec3 -> list vec3 * list vec3;
  backward : list vec3 * list vec3 -> list vec3 * list vec3
}.

(** [transformation.NullTransformation(h)] *)
Definition NullTransformation : Transformation :=
  {| forward := fun pv => pv; backward := fun pv => pv |}.

(** Modelled from the spec: the reference profile ("an ordered sequence of
    radial bins, each carrying ... aggregate potential, circular angular
    momentum, and circular energy").  The record keeps the per-bin columns
    the profile computes directly; [E_circ] and [j_circ] are derived from
    them on demand, so a change of [pro_phi] reaches [E_circ]. *)
Record Profile := {
  pro_nbins : Z;
  pro_rbins : list float;
  pro_phi : SimArray;
  pro_v_circ : SimArray
}.

Definition set_pro_phi (a : SimArray) (p : Profile) : Profile :=
  {| pro_nbins := pro_nbins p; pro_rbins := pro_rbins p;
     pro_phi := a; pro_v_circ := pro_v_circ p |}.

(** Modelled from the spec: the quantile profile
    ("build_quantile_profile(set, quantile, bin_count, binning_mode,
    x_function)"): the per-bin quantile columns, by name. *)
Record QuantileProfile := {
  qp_q : list float;
  qp_nbins : Z;
  qp_type : string;
  qp_x : SimArray;
  qp_columns : gmap string (list float)
}.

(** What [decomp.py] imports and calls: pynbody's transformation, derived
    arrays, filters, profiles and root finder, and numpy's elementary
    functions. *)
Record Collaborators := {
  (** [angmom.faceon(h, disk_size=...)]: the transformation it applies *)
  faceon : SimSnap -> string -> exn + Transformation;
  (** derived arrays [h['ke']], [h['j'][:, 2]], [h['vcxy']], [h['j2']] *)
  derived_ke : list vec3 -> SimArray;
  derived_jz : list vec3 -> list vec3 -> SimArray;
  derived_vcxy : list vec3 -> list vec3 -> SimArray;
  derived_j2 : list vec3 -> list vec3 -> SimArray;
  (** [filt.Disc(radius, height)] as a predicate on positions *)
  Disc : string -> float -> Unit -> vec3 -> bool;
  (** [profile.Profile(d, nbins=nbins, type='equaln')] *)
  Profile_new : SimSnap -> Z -> exn + Profile;
  E_circ : Profile -> SimArray;
  j_circ : Profile -> SimArray;
  (** the radial bin a position falls in *)
  radial_bin : Profile -> vec3 -> nat;
  (** [profile.QuantileProfile(h, q=..., nbins=..., type=..., calc_x=...)] *)
  QuantileProfile_new :
    SimSnap -> list float -> Z -> string -> SimArray -> exn + QuantileProfile;
  quantile_bin : QuantileProfile -> nat -> nat;
  (** [util.bisect(left, right, f)] *)
  bisect : float -> float -> (float -> float) -> float;
  (** [np.log10], [10 ** x], [np.sqrt] *)
  log10 : float -> float;
  power10 : float -> float;
  sqrt : float -> float
}.

(** Modelled from the spec: [Profile.create_particle_array] ("assigns each
    particle ... the circular angular momentum and circular energy of its
    radial bin"). *)
Definition create_particle_array (C : Collaborators) (p : Profile)
    (column : SimArray) (target : SimSnap) : SimArray :=
  {| data := map (fun x => nth (radial_bin C p x) (data column) NaN) (pos target);
     units := units column |}.


(* ================================================================== *)
(** * decomp.py *)
(* ================================================================== *)


Definition default_particles_per_bin : Z := 500.

(** The keyword arguments of [decomp]. *)
Record Config := {
  aligned : bool;
  j_disk_min : float;
  j_disk_max : float;
  E_cut : option float;
  j_circ_from_r : bool;
  log_interp : bool;
  angmom_size : string;
  particles_per_bin : Z
}.

Definition default_config : Config :=
  {| aligned := false; j_disk_min := F 8 10; j_disk_max := F 11 10;
     E_cut := None; j_circ_from_r := false; log_interp := false;
     angmom_size := "3 kpc"; particles_per_bin := 500 |}.

(** [h_star[name]] for an integer array of the star family. *)
Definition star_getitem (name : string) : M (list Z) :=
  h <~ get_sim ;; lift_opt (KeyError name) (star_arrays h !! name).

(** [h_star[name, np.where(mask)] = v] *)
Definition star_assign (name : string) (mask : list bool) (v : Z) : M unit :=
  a <~ star_getitem name ;;
  h <~ get_sim ;;
  put_sim (set_star_arrays (<[name := assign_where mask v a]> (star_arrays h)) h).

(** [if 'decomp' not in h_star: h_star._create_array('decomp', dtype=int)] *)
Definition create_decomp_if_absent : M unit :=
  h <~ get_sim ;;
  match star_arrays h !! "decomp" with
  | Some _ => ret tt
  | None =>
      put_sim (set_star_arrays
                 (<["decomp" := replicate (length (star_view h (families h))) 0]>
                    (star_arrays h)) h)
  end.

(** Lines 150-168: the circular angular momentum of every particle from
    its energy. *)
Definition j_circ_from_energy (C : Collaborators) (cfg : Config)
    (ke_units : Unit) (pro_d : Profile) : M unit :=
  (if log_interp cfg then
     E <~ lift (in_units (E_circ C pro_d) ke_units) ;;
     j_from_E <~ lift (interp1d_new
                         (rev (map (fun e => log10 C (fneg e)) (data E)))
                         (rev (map (log10 C) (data (j_circ C pro_d))))) ;;
     te <~ getitem "te" ;;
     setitem "j_circ"
       {| data := map (fun e => power10 C
                                  (interp1d_call j_from_E (log10 C (fneg e))))
                      (data te);
          units := no_unit |}
   else
     E <~ lift (in_units (E_circ C pro_d) ke_units) ;;
     j_from_E <~ lift (interp1d_new (data E) (data (j_circ C pro_d))) ;;
     te <~ getitem "te" ;;
     setitem "j_circ"
       {| data := map (interp1d_call j_from_E) (data te); units := no_unit |}) ;;;
  (* h['j_circ'][np.where(h['te'] > pro_d['E_circ'].max())] = np.inf *)
  jc <~ getitem "j_circ" ;;
  te <~ getitem "te" ;;
  E_max <~ lift_opt ValueError (amax (data (E_circ C pro_d))) ;;
  setitem "j_circ"
    {| data := assign_where (map (fun e => gtb e E_max) (data te)) PInf (data jc);
       units := units jc |} ;;;
  (* h['j_circ'][np.where(h['te'] < pro_d['E_circ'].min())] = pro_d['j_circ'][0] *)
  j0 <~ lift_opt IndexError (data (j_circ C pro_d) !! 0%nat) ;;
  jc <~ getitem "j_circ" ;;
  te <~ getitem "te" ;;
  E_min <~ lift_opt ValueError (amin (data (E_circ C pro_d))) ;;
  setitem "j_circ"
    {| data := assign_where (map (fun e => ltb e E_min) (data te)) j0 (data jc);
       units := units jc |}.

(** Lines 190-198: the critical ratio, with its reset to [j_disk_min]. *)
Definition find_j_crit (C : Collaborators) (cfg : Config)
    (V JzJcirc : list float) : M float :=
  let j_crit :=
    bisect C (F 0 1) (F 5 1)
      (fun c => mean (select (map (fun r => ltb r c) JzJcirc) V)) in
  logger_info "j_crit = %.2e" [j_crit] ;;;
  if gtb j_crit (j_disk_min cfg) then
    logger_warning "!! j_crit exceeds j_disk_min. This is usually a sign that something is going wrong (train-wreck galaxy?)" [] ;;;
    logger_warning "!! j_crit will be reset to j_disk_min=%.2e" [j_disk_min cfg] ;;;
    ret (j_disk_min cfg)
  else ret j_crit.

(** Lines 207-212: the four masks of the second pass. *)
Definition outside_band (cfg : Config) (JzJcirc : list float) : list bool :=
  mask_or (map (fun r => ltb r (j_disk_min cfg)) JzJcirc)
          (map (fun r => gtb r (j_disk_max cfg)) JzJcirc).
Definition disk_mask (cfg : Config) (JzJcirc : list float) : list bool :=
  mask_and (map (fun r => gtb r (j_disk_min cfg)) JzJcirc)
           (map (fun r => ltb r (j_disk_max cfg)) JzJcirc).
Definition halo_mask (E_cut j_crit : float) (te JzJcirc : list float) : list bool :=
  mask_and (map (fun e => gtb e E_cut) te) (map (fun r => ltb r j_crit) JzJcirc).
Definition bulge_mask (E_cut j_crit : float) (te JzJcirc : list float) : list bool :=
  mask_and (map (fun e => leb e E_cut) te) (map (fun r => ltb r j_crit) JzJcirc).
Definition pbulge_mask (cfg : Config) (E_cut j_crit : float)
    (te JzJcirc : list float) : list bool :=
  mask_and (mask_and (map (fun e => leb e E_cut) te)
                     (map (fun r => gtb r j_crit) JzJcirc))
           (outside_band cfg JzJcirc).
Definition thick_mask (cfg : Config) (E_cut j_crit : float)
    (te JzJcirc : list float) : list bool :=
  mask_and (mask_and (map (fun e => gtb e E_cut) te)
                     (map (fun r => gtb r j_crit) JzJcirc))
           (outside_band cfg JzJcirc).

(** The body of [with tx:] (lines 109-217). *)
Definition decomp_body (C : Collaborators) (cfg : Config) : M Profile :=
  (* Find KE, PE and TE *)
  h <~ get_sim ;;
  let ke := derived_ke C (vel h) in
  pe <~ getitem "phi" ;;
  (* h['phi'].convert_units(ke.units): in place, so [pe] sees it too *)
  pe <~ lift (in_units pe (units ke)) ;;
  setitem "phi" pe ;;;
  let te := arr_add ke pe in
  setitem "te" te ;;;
  h <~ get_sim ;;
  te_h <~ getitem "te" ;;
  let te_star := star_view h (data te_h) in
  te_max <~ lift_opt ValueError (amax te_star) ;;
  (* te -= te_max changes the local array only *)
  let te := arr_sub_scalar te te_max in
  logger_info "te_max = %.2e" [te_max] ;;;
  (* h['te'] -= te_max *)
  te_h <~ getitem "te" ;;
  setitem "te" (arr_sub_scalar te_h te_max) ;;;
  logger_info "Making disk rotation curve..." [] ;;;
  (* d = h[filt.Disc('1 Mpc', h['eps'].min() * 3)] *)
  eps <~ getitem "eps" ;;
  eps_min <~ lift_opt ValueError (amin (data eps)) ;;
  h <~ get_sim ;;
  let d := subsnap (map (Disc C "1 Mpc" (fmul eps_min (F 3 1)) (units eps)) (pos h)) h in
  if particles_per_bin cfg =? 0 then raise ZeroDivisionError else
  let nbins := len d / particles_per_bin cfg in
  pro_d <~ lift (Profile_new C d nbins) ;;
  (* pro_phi = pro_d['phi']; pro_phi -= te_max *)
  let pro_d := set_pro_phi (arr_sub_scalar (pro_phi pro_d) te_max) pro_d in
  (if j_circ_from_r cfg then
     h <~ get_sim ;;
     setitem "j_circ" (create_particle_array C pro_d (j_circ C pro_d) h) ;;;
     h <~ get_sim ;;
     setitem "E_circ" (create_particle_array C pro_d (E_circ C pro_d) h)
   else j_circ_from_energy C cfg (units ke) pro_d) ;;;
  (* h['jz_by_jzcirc'] = h['j'][:, 2] / h['j_circ'] *)
  h <~ get_sim ;;
  jc <~ getitem "j_circ" ;;
  setitem "jz_by_jzcirc" (arr_div (derived_jz C (pos h) (vel h)) jc) ;;;
  (* h_star = h.star *)
  create_decomp_if_absent ;;;
  h <~ get_sim ;;
  r <~ getitem "jz_by_jzcirc" ;;
  star_assign "decomp" (disk_mask cfg (star_view h (data r))) 1 ;;;
  (* Find disk/spheroid angular momentum cut-off *)
  h <~ get_sim ;;
  let V := star_view h (data (derived_vcxy C (pos h) (vel h))) in
  r <~ getitem "jz_by_jzcirc" ;;
  let JzJcirc := star_view h (data r) in
  te_h <~ getitem "te" ;;
  let te := star_view h (data te_h) in
  logger_info "Finding spheroid/disk angular momentum boundary..." [] ;;;
  j_crit <~ find_j_crit C cfg V JzJcirc ;;
  E_cut <~ match E_cut cfg with
           | None => te_h <~ getitem "te" ;; h <~ get_sim ;;
                     ret (median (star_view h (data te_h)))
           | Some e => ret e
           end ;;
  logger_info "E_cut = %.2e" [E_cut] ;;;
  let halo := halo_mask E_cut j_crit te JzJcirc in
  let bulge := bulge_mask E_cut j_crit te JzJcirc in
  let pbulge := pbulge_mask cfg E_cut j_crit te JzJcirc in
  let thick := thick_mask cfg E_cut j_crit te JzJcirc in
  star_assign "decomp" halo 2 ;;;
  star_assign "decomp" bulge 3 ;;;
  star_assign "decomp" thick 4 ;;;
  star_assign "decomp" pbulge 5 ;;;
  ret pro_d.

(** [angmom.faceon] moves the snapshot into the aligned frame and hands
    back the transformation that did it. *)
Definition apply_faceon (C : Collaborators) (size : string) : M Transformation :=
  h <~ get_sim ;;
  tx <~ lift (faceon C h size) ;;
  put_sim (set_frame (forward tx (pos h, vel h)) h) ;;;
  ret tx.

(** [with tx: body]: the frame is taken back on leaving the block, whether
    the block returned or raised. *)
Definition with_tx {A} (tx : Transformation) (body : M A) : M A :=
  fun w =>
    let '(r, w') := body w in
    (r, {| sim := set_frame (backward tx (pos (sim w'), vel (sim w'))) (sim w');
           logged := logged w' |}).

(** [decomp(h, aligned, j_disk_min, j_disk_max, E_cut, j_circ_from_r,
    log_interp, angmom_size, particles_per_bin)] *)
Definition decomp (C : Collaborators) (cfg : Config) : M Profile :=
  tx <~ (if aligned cfg then ret NullTransformation
         else apply_faceon C (angmom_size cfg)) ;;
  with_tx tx (decomp_body C cfg).

(* ================================================================== *)
(** * Executable stand-ins for the collaborators *)
(* ================================================================== *)

(** A small concrete instance of [Collaborators], used to run [decomp] on
    example snapshots.  The stand-ins are simple on purpose: the frame
    change is a cyclic rotation of the axes, the profile bins the disc
    particles in storage order, the root finder bisects a fixed number of
    times, and the elementary functions are exact on the values the
    examples use (powers of ten, perfect squares). *)

Definition fabs (a : float) : float := if ltb a fzero then fneg a else a.

Definition km2_s2 : Unit :=
  {| u_num := 1; u_den := 1; u_length := 2; u_mass := 0; u_time := -2 |}.
Definition m2_s2 : Unit :=
  {| u_num := 1; u_den := 1000000; u_length := 2; u_mass := 0; u_time := -2 |}.
Definition kpc_km_s : Unit :=
  {| u_num := 1; u_den := 1; u_length := 2; u_mass := 0; u_time := -1 |}.
Definition km_s : Unit :=
  {| u_num := 1; u_den := 1; u_length := 1; u_mass := 0; u_time := -1 |}.
Definition kpc : Unit :=
  {| u_num := 1; u_den := 1; u_length := 1; u_mass := 0; u_time := 0 |}.

Definition toy_sqrt (a : float) : float :=
  match a with
  | Fin q => if Qcltb q Qc0 then NaN
             else Fin (Q2Qc (Z.sqrt (Qnum q) # Pos.sqrt (Qden q)))
  | PInf => PInf
  | _ => NaN
  end.

(** The number of decimal digits of [n], less one. *)
Fixpoint ilog10 (fuel : nat) (n : Z) : Z :=
  match fuel with
  | O => 0
  | S fuel' => if n <? 10 then 0 else 1 + ilog10 fuel' (n / 10)
  end.

Definition toy_log10 (a : float) : float :=
  match a with
  | Fin q =>
      if Qcltb Qc0 q then
        let n := Qnum q in let d := Z.pos (Qden q) in
        if d <=? n then F (ilog10 64 (n / d)) 1
        else F (- (1 + ilog10 64 ((d - 1) / n))) 1
      else if Qceqb q Qc0 then NInf else NaN
  | PInf => PInf
  | _ => NaN
  end.

Definition toy_power10 (a : float) : float :=
  match a with
  | Fin q =>
      let e := (Qnum q / Z.pos (Qden q))%Z in
      if 0 <=? e then F (10 ^ e) 1 else F 1 (Z.to_pos (10 ^ (- e)))
  | PInf => PInf
  | NInf => fzero
  | NaN => NaN
  end.

Definition toy_ke (v : list vec3) : SimArray :=
  {| data := map (fun '(vx, vy, vz) =>
                    fmul (F 1 2) (fadd (fadd (fmul vx vx) (fmul vy vy)) (fmul vz vz))) v;
     units := km2_s2 |}.

Definition cross_z (p v : vec3) : float :=
  let '(x, y, _) := p in let '(vx, vy, _) := v in
  fsub (fmul x vy) (fmul y vx).

Definition toy_jz (p v : list vec3) : SimArray :=
  {| data := zip_with cross_z p v; units := kpc_km_s |}.

Definition rxy (C_sqrt : float -> float) (p : vec3) : float :=
  let '(x, y, _) := p in C_sqrt (fadd (fmul x x) (fmul y y)).

Definition toy_vcxy (p v : list vec3) : SimArray :=
  {| data := zip_with (fun a b => fdiv (cross_z a b) (rxy toy_sqrt a)) p v;
     units := km_s |}.

Definition toy_j2 (p v : list vec3) : SimArray :=
  {| data := zip_with (fun a b =>
                let '(x, y, z) := a in let '(vx, vy, vz) := b in
                let jx := fsub (fmul y vz) (fmul z vy) in
                let jy := fsub (fmul z vx) (fmul x vz) in
                let jz := fsub (fmul x vy) (fmul y vx) in
                fadd (fadd (fmul jx jx) (fmul jy jy)) (fmul jz jz)) p v;
     units := no_unit |}.

Definition toy_Disc (radius : string) (height : float) (u : Unit) (p : vec3) : bool :=
  let '(_, _, z) := p in ltb (fabs z) height.

Definition rotate_axes (p : vec3) : vec3 := let '(x, y, z) := p in (y, z, x).
Definition unrotate_axes (p : vec3) : vec3 := let '(x, y, z) := p in (z, x, y).

Definition toy_faceon (h : SimSnap) (size : string) : exn + Transformation :=
  inr {| forward := fun pv => (map rotate_axes pv.1, map rotate_axes pv.2);
         backward := fun pv => (map unrotate_axes pv.1, map unrotate_axes pv.2) |}.

Fixpoint chunks {A} (k m : nat) (l : list A) : list (list A) :=
  match k with
  | O => []
  | S k' => take m l :: chunks k' m (drop m l)
  end.

Definition toy_Profile_new (d : SimSnap) (nbins : Z) : exn + Profile :=
  if nbins <=? 0 then inl (CollaboratorError "Profile")
  else match arrays d !! "phi" with
       | None => inl (KeyError "phi")
       | Some phi =>
           let k := Z.to_nat nbins in
           let m := (length (families d) / k)%nat in
           inr {| pro_nbins := nbins;
                  pro_rbins := map mean (chunks k m (map (rxy toy_sqrt) (pos d)));
                  pro_phi := {| data := map mean (chunks k m (data phi));
                                units := units phi |};
                  pro_v_circ :=
                    {| data := map mean (chunks k m
                                           (map fabs (data (toy_vcxy (pos d) (vel d)))));
                       units := km_s |} |}
       end.

Definition toy_E_circ (p : Profile) : SimArray :=
  {| data := zip_with (fun v phi => fadd (fmul (F 1 2) (fmul v v)) phi)
                      (data (pro_v_circ p)) (data (pro_phi p));
     units := units (pro_phi p) |}.

Definition toy_j_circ (p : Profile) : SimArray :=
  {| data := zip_with fmul (data (pro_v_circ p)) (pro_rbins p);
     units := kpc_km_s |}.

Definition toy_radial_bin (p : Profile) (x : vec3) : nat :=
  Nat.min (searchsorted (pro_rbins p) (rxy toy_sqrt x))
          (length (pro_rbins p) - 1).

Fixpoint bisect_loop (n : nat) (left right : float) (f : float -> float) : float :=
  let mid := fdiv (fadd left right) (F 2 1) in
  match n with
  | O => mid
  | S n' =>
      let z := f mid in
      if ltb z fzero then bisect_loop n' mid right f
      else if gtb z fzero then bisect_loop n' left mid f
      else mid
  end.
Definition toy_bisect (left right : float) (f : float -> float) : float :=
  bisect_loop 12 left right f.

(** Rank-based equal-population bins of the binning variable, and the
    nearest-rank quantile of [j2] within each bin. *)
Definition rank_bin (x : list float) (nbins : Z) (i : nat) : nat :=
  let xi := nth i x NaN in
  let r := length (filter (fun y => ltb y xi = true) x) in
  Nat.min (r * Z.to_nat nbins / length x) (Z.to_nat nbins - 1).

Definition nearest_rank (q : float) (l : list float) : float :=
  let s := fsort l in
  match fmul q (of_nat (length s - 1)) with
  | Fin r => nth (Z.to_nat (Qnum r / Z.pos (Qden r))) s NaN
  | _ => NaN
  end.

Definition toy_QuantileProfile_new (h : SimSnap) (q : list float) (nbins : Z)
    (type : string) (x : SimArray) : exn + QuantileProfile :=
  if nbins <=? 0 then inl (CollaboratorError "QuantileProfile")
  else
    let j2 := data (toy_j2 (pos h) (vel h)) in
    let idx := seq 0 (length (data x)) in
    let members k := map (fun i => nth i j2 NaN)
                         (filter (fun i => rank_bin (data x) nbins i = k) idx) in
    inr {| qp_q := q; qp_nbins := nbins; qp_type := type; qp_x := x;
           qp_columns :=
             {[ "j2" := map (fun k => nearest_rank (nth 0 q NaN) (members k))
                            (seq 0 (Z.to_nat nbins)) ]} |}.

Definition toy_quantile_bin (p : QuantileProfile) (i : nat) : nat :=
  rank_bin (data (qp_x p)) (qp_nbins p) i.

Definition toy : Collaborators :=
  {| faceon := toy_faceon;
     derived_ke := toy_ke; derived_jz := toy_jz;
     derived_vcxy := toy_vcxy; derived_j2 := toy_j2;
     Disc := toy_Disc;
     Profile_new := toy_Profile_new;
     E_circ := toy_E_circ; j_circ := toy_j_circ;
     radial_bin := toy_radial_bin;
     QuantileProfile_new := toy_QuantileProfile_new;
     quantile_bin := toy_quantile_bin;
     bisect := toy_bisect;
     log10 := toy_log10; power10 := toy_power10; sqrt := toy_sqrt |}.

(** An example snapshot in the aligned frame: eight particles on the
    x axis moving along y, six of them stars, the potential stored in
    m^2 s^-2 while the kinetic energy comes out in km^2 s^-2. *)
Definition vec (x y z : Z) : vec3 := (F x 1, F y 1, F z 1).

Definition example_aligned : SimSnap :=
  {| families := [star; star; star; star; gas; star; dm; star];
     pos := [vec 1 0 0; vec 1 0 0; vec 2 0 0; vec 2 0 0;
             vec 3 0 0; vec 3 0 0; vec 4 0 0; vec 4 0 0];
     vel := [vec 0 2 0; vec 0 (-2) 0; vec 0 2 0; vec 0 1 0;
             vec 0 2 0; vec 0 2 0; vec 0 2 0; vec 0 2 0];
     arrays :=
       {[ "phi" := {| data := [F (-10000000) 1; F (-10000000) 1; F (-8000000) 1;
                               F (-8000000) 1; F (-6000000) 1; F (-6000000) 1;
                               F (-5000000) 1; F (-5000000) 1];
                      units := m2_s2 |};
          "eps" := {| data := replicate 8 (F 1 10); units := kpc |};
          "mass" := {| data := replicate 8 (F 1 1); units := no_unit |} ]};
     star_arrays := ∅ |}.

(** The same particles before alignment. *)
Definition example_snapshot : SimSnap :=
  set_frame (map unrotate_axes (pos example_aligned),
             map unrotate_axes (vel example_aligned)) example_aligned.

Definition world_of (h : SimSnap) : World := {| sim := h; logged := [] |}.

Definition example_config : Config :=
  {| aligned := false; j_disk_min := F 8 10; j_disk_max := F 11 10;
     E_cut := None; j_circ_from_r := false; log_interp := false;
     angmom_size := "3 kpc"; particles_per_bin := 2 |}.

(* ================================================================== *)
(** * What the statements of [decomp] compute *)
(* ================================================================== *)

(** The pure content of groups of statements of [decomp], used to state
    what the run leaves in the snapshot.  Each is proved below to be what
    the monadic code computes. *)

(** Lines 194-198: the ratio that classification uses, from the solver's. *)
Definition reset_j_crit (cfg : Config) (j_crit : float) : float :=
  if gtb j_crit (j_disk_min cfg) then j_disk_min cfg else j_crit.

(** Lines 175-217 on the label array: the five masked assignments in the
    order the code makes them. *)
Definition classify_stars (cfg : Config) (E_cut j_crit : float)
    (te JzJcirc : list float) (labels : list Z) : list Z :=
  assign_where (pbulge_mask cfg E_cut j_crit te JzJcirc) 5
    (assign_where (thick_mask cfg E_cut j_crit te JzJcirc) 4
       (assign_where (bulge_mask E_cut j_crit te JzJcirc) 3
          (assign_where (halo_mask E_cut j_crit te JzJcirc) 2
             (assign_where (disk_mask cfg JzJcirc) 1 labels)))).

(** The same for one star: the label it carries after both passes, given
    the label it had before. *)
Definition in_disk_band (cfg : Config) (r : float) : bool :=
  gtb r (j_disk_min cfg) && ltb r (j_disk_max cfg).
Definition out_of_band (cfg : Config) (r : float) : bool :=
  ltb r (j_disk_min cfg) || gtb r (j_disk_max cfg).
Definition is_halo (E_cut j_crit e r : float) : bool :=
  gtb e E_cut && ltb r j_crit.
Definition is_bulge (E_cut j_crit e r : float) : bool :=
  leb e E_cut && ltb r j_crit.
Definition is_pbulge (cfg : Config) (E_cut j_crit e r : float) : bool :=
  leb e E_cut && gtb r j_crit && out_of_band cfg r.
Definition is_thick (cfg : Config) (E_cut j_crit e r : float) : bool :=
  gtb e E_cut && gtb r j_crit && out_of_band cfg r.

Definition label_of (cfg : Config) (E_cut j_crit e r : float) (prior : Z) : Z :=
  if is_pbulge cfg E_cut j_crit e r then 5
  else if is_thick cfg E_cut j_crit e r then 4
  else if is_bulge E_cut j_crit e r then 3
  else if is_halo E_cut j_crit e r then 2
  else if in_disk_band cfg r then 1
  else prior.

(** How many of the five rules a star matches. *)
Definition rules_matched (cfg : Config) (E_cut j_crit e r : float) : nat :=
  (Nat.b2n (in_disk_band cfg r) + Nat.b2n (is_halo E_cut j_crit e r)
   + Nat.b2n (is_bulge E_cut j_crit e r)
   + Nat.b2n (is_thick cfg E_cut j_crit e r)
   + Nat.b2n (is_pbulge cfg E_cut j_crit e r))%nat.

(** Line 190: the objective handed to the root finder. *)
Definition objective (V JzJcirc : list float) (c : float) : float :=
  mean (select (map (fun r => ltb r c) JzJcirc) V).

(** Lines 150-168 for one particle of energy [e]. *)
Definition interpolated (C : Collaborators) (cfg : Config) (f : interp1d)
    (e : float) : float :=
  if log_interp cfg
  then power10 C (interp1d_call f (log10 C (fneg e)))
  else interp1d_call f e.
Definition clamped (E_max E_min j0 : float) (e j : float) : float :=
  if ltb e E_min then j0 else if gtb e E_max then PInf else j.

(** The arguments the code passes to [interp1d]. *)
Definition interp_x (C : Collaborators) (cfg : Config) (E : list float) : list float :=
  if log_interp cfg then rev (map (fun e => log10 C (fneg e)) E) else E.
Definition interp_y (C : Collaborators) (cfg : Config) (j : list float) : list float :=
  if log_interp cfg then rev (map (log10 C) j) else j.

(** Ascending order, as [interp1d] keeps its abscissae. *)
Definition fle (a b : float) : Prop := leb a b = true.

(** What the snapshot holds once lines 145-168 have run: by radius the
    profile's columns are mapped back to every particle ([j_circ], then
    [E_circ]); by energy [j_circ] is the interpolant's value with the two
    edge assignments on top. *)
Inductive j_circ_attached (C : Collaborators) (cfg : Config) (ke_units : Unit)
    (pro : Profile) (h : SimSnap) (te : SimArray)
  : SimArray -> gmap string SimArray -> Prop :=
| attached_by_radius :
    j_circ_from_r cfg = true ->
    let jc := create_particle_array C pro (j_circ C pro) h in
    j_circ_attached C cfg ke_units pro h te jc
      (<["E_circ" := create_particle_array C pro (E_circ C pro) h]>
         (<["j_circ" := jc]> (arrays h)))
| attached_by_energy E f E_max E_min j0 :
    j_circ_from_r cfg = false ->
    in_units (E_circ C pro) ke_units = inr E ->
    interp1d_new (interp_x C cfg (data E))
                 (interp_y C cfg (data (j_circ C pro))) = inr f ->
    amax (data (E_circ C pro)) = Some E_max ->
    amin (data (E_circ C pro)) = Some E_min ->
    data (j_circ C pro) !! 0%nat = Some j0 ->
    let jc := {| data := map (fun e => clamped E_max E_min j0 e
                                         (interpolated C cfg f e)) (data te);
                 units := no_unit |} in
    j_circ_attached C cfg ke_units pro h te jc (<["j_circ" := jc]> (arrays h)).

(** The label array the star family has when the first pass starts. *)
Definition prior_labels (h : SimSnap) : list Z :=
  default (replicate (length (star_view h (families h))) 0)
          (star_arrays h !! "decomp").

(** A run of the body of [decomp] that returns: the profile it returns and
    the snapshot it leaves, from the snapshot [h] it starts on. *)
Inductive decomp_returns (C : Collaborators) (cfg : Config) (h : SimSnap)
  : Profile -> SimSnap -> Prop :=
| decomp_returns_intro phi0 pe te_max eps eps_min pro0 jc A :
    let ke := derived_ke C (vel h) in
    arrays h !! "phi" = Some phi0 ->
    in_units phi0 (units ke) = inr pe ->
    amax (star_view h (data (arr_add ke pe))) = Some te_max ->
    let te := arr_sub_scalar (arr_add ke pe) te_max in
    arrays h !! "eps" = Some eps ->
    amin (data eps) = Some eps_min ->
    particles_per_bin cfg <> 0 ->
    let h_te := set_arrays (<["te" := te]> (<["phi" := pe]> (arrays h))) h in
    let d := subsnap (map (Disc C "1 Mpc" (fmul eps_min (F 3 1)) (units eps))
                          (pos h)) h_te in
    Profile_new C d (len d / particles_per_bin cfg) = inr pro0 ->
    let pro := set_pro_phi (arr_sub_scalar (pro_phi pro0) te_max) pro0 in
    j_circ_attached C cfg (units ke) pro h_te te jc A ->
    let jz := arr_div (derived_jz C (pos h) (vel h)) jc in
    let JzJcirc := star_view h (data jz) in
    let te_star := star_view h (data te) in
    let V := star_view h (data (derived_vcxy C (pos h) (vel h))) in
    let j_crit :=
      reset_j_crit cfg (bisect C (F 0 1) (F 5 1) (objective V JzJcirc)) in
    let E := match E_cut cfg with None => median te_star | Some e => e end in
    decomp_returns C cfg h pro
      {| families := families h; pos := pos h; vel := vel h;
         arrays := <["jz_by_jzcirc" := jz]> A;
         star_arrays :=
           <["decomp" := classify_stars cfg E j_crit te_star JzJcirc
                           (prior_labels h)]> (star_arrays h) |}.



(** A computation keeps a property of the snapshot, whether it returns or
    raises. *)
Definition preserves {A} (I : SimSnap -> Prop) (m : M A) : Prop :=
  forall w, I (sim w) -> I (sim (m w).2).


(** The per-particle fields [decomp] attaches once the disc profile is
    built. *)
Definition attached_after_profile : list string :=
  ["j_circ"; "E_circ"; "jz_by_jzcirc"].

(** Two snapshots with the same particles in the same frame, and the same
    per-particle fields except perhaps those that [decomp] attaches once
    the profile is built; the star family's integer arrays may differ. *)
Definition same_profile_inputs (d d' : SimSnap) : Prop :=
  families d = families d' /\ pos d = pos d' /\ vel d = vel d'
  /\ (forall k, k ∉ attached_after_profile -> arrays d !! k = arrays d' !! k).

(** Modelled from the spec: the reference profile is a function of the
    disc particles and of the fields it bins ("deterministic given
    deterministic collaborators"); it does not read the fields and labels
    that [decomp] itself writes after building it. *)
Definition profile_reads_inputs_only (C : Collaborators) : Prop :=
  forall d d' nbins,
    same_profile_inputs d d' -> Profile_new C d nbins = Profile_new C d' nbins.

(** [decomp] with every keyword at the example's value, on a snapshot that
    is already aligned. *)
Definition example_config_aligned : Config :=
  {| aligned := true; j_disk_min := F 8 10; j_disk_max := F 11 10;
     E_cut := None; j_circ_from_r := false; log_interp := false;
     angmom_size := "3 kpc"; particles_per_bin := 2 |}.


(** The transformation [decomp] runs its body under (lines 102-107): none
    when the snapshot is declared aligned, else the one [faceon] hands
    back. *)
Definition alignment (C : Collaborators) (cfg : Config) (h : SimSnap)
    (tx : Transformation) : Prop :=
  if aligned cfg then tx = NullTransformation
  else faceon C h (angmom_size cfg) = inr tx.

(** The snapshot in the frame the body of [with tx:] works in. *)
Definition aligned_frame (tx : Transformation) (h : SimSnap) : SimSnap :=
  set_frame (forward tx (pos h, vel h)) h.

(** [mask[i]], false where the mask has no entry. *)
Definition mask_at (m : list bool) (i : nat) : bool := default false (m !! i).

(** How many of the five masks of lines 176 and 207-212 select entry [i]. *)
Definition masks_set (cfg : Config) (E_cut j_crit : float)
    (te JzJcirc : list float) (i : nat) : nat :=
  (Nat.b2n (mask_at (disk_mask cfg JzJcirc) i)
   + Nat.b2n (mask_at (halo_mask E_cut j_crit te JzJcirc) i)
   + Nat.b2n (mask_at (bulge_mask E_cut j_crit te JzJcirc) i)
   + Nat.b2n (mask_at (thick_mask cfg E_cut j_crit te JzJcirc) i)
   + Nat.b2n (mask_at (pbulge_mask cfg E_cut j_crit te JzJcirc) i))%nat.

(** The example snapshot with one field taken away or replaced. *)
Definition without_field (name : string) (h : SimSnap) : SimSnap :=
  set_arrays (delete name (arrays h)) h.
Definition with_field (name : string) (a : SimArray) (h : SimSnap) : SimSnap :=
  set_arrays (<[name := a]> (arrays h)) h.

(** The example snapshot with every star turned into gas. *)
Definition example_no_stars : SimSnap :=
  {| families := map (fun _ => gas) (families example_aligned);
     pos := pos example_aligned; vel := vel example_aligned;
     arrays := arrays example_aligned;
     star_arrays := star_arrays example_aligned |}.

Definition example_config_no_bins : Config :=
  {| aligned := true; j_disk_min := F 8 10; j_disk_max := F 11 10;
     E_cut := None; j_circ_from_r := false; log_interp := false;
     angmom_size := "3 kpc"; particles_per_bin := 0 |}.


(* ================================================================== *)
(** * The order on floats *)
(* ================================================================== *)

Lemma Qcltb_lt (x y : Qc) : Qcltb x y = true <-> (x < y)%Qc.
Proof.
  unfold Qcltb. rewrite Qclt_alt. destruct (x ?= y)%Qc; intuition congruence.
Qed.

Lemma Qcltb_ge (x y : Qc) : Qcltb x y = false <-> (y <= x)%Qc.
Proof.
  rewrite <- not_true_iff_false, Qcltb_lt. split.
  - apply Qcnot_lt_le.
  - apply Qcle_not_lt.
Qed.

Lemma Qceqb_eq (x y : Qc) : Qceqb x y = true <-> x = y.
Proof.
  unfold Qceqb. rewrite Qceq_alt. destruct (x ?= y)%Qc; intuition congruence.
Qed.

Lemma Qceqb_refl (x : Qc) : Qceqb x x = true.
Proof. by apply Qceqb_eq. Qed.

Lemma Qcltb_irrefl (x : Qc) : Qcltb x x = false.
Proof. apply Qcltb_ge, Qcle_refl. Qed.

(** Turns boolean comparisons of rationals in the context and the goal
    into propositions and settles them by linear arithmetic over [Q]. *)
Ltac qc_prop :=
  repeat match goal with
  | H : Qcltb _ _ = true |- _ => apply Qcltb_lt in H
  | H : Qcltb _ _ = false |- _ => apply Qcltb_ge in H
  | H : Qceqb _ _ = true |- _ => apply Qceqb_eq in H; subst
  | |- Qcltb _ _ = true => apply Qcltb_lt
  | |- Qcltb _ _ = false => apply Qcltb_ge
  | |- Qceqb _ _ = true => apply Qceqb_eq
  end.
Ltac qc_order :=
  qc_prop; unfold Qclt, Qcle in *;
  first [ lra | exfalso; lra ].

Lemma ltb_irrefl (a : float) : ltb a a = false.
Proof. destruct a; simpl; auto using Qcltb_irrefl. Qed.

Lemma ltb_asym (a b : float) : ltb a b = true -> ltb b a = false.
Proof. destruct a, b; simpl; try done. intros. qc_order. Qed.

Lemma ltb_trans (a b c : float) :
  ltb a b = true -> ltb b c = true -> ltb a c = true.
Proof. destruct a, b, c; simpl; try done. intros. qc_order. Qed.

Lemma feqb_eq (a b : float) : feqb a b = true -> a = b.
Proof.
  destruct a, b; simpl; try done. intros H. apply Qceqb_eq in H. by subst.
Qed.

Lemma leb_ltb_trans (a b c : float) :
  leb a b = true -> ltb b c = true -> ltb a c = true.
Proof.
  unfold leb. intros [H|H]%orb_true_iff Hbc.
  - eauto using ltb_trans.
  - apply feqb_eq in H. by subst.
Qed.

Lemma ltb_leb_trans (a b c : float) :
  ltb a b = true -> leb b c = true -> ltb a c = true.
Proof.
  unfold leb. intros Hab [H|H]%orb_true_iff.
  - eauto using ltb_trans.
  - apply feqb_eq in H. by subst.
Qed.

Lemma leb_trans (a b c : float) :
  leb a b = true -> leb b c = true -> leb a c = true.
Proof.
  intros Hab Hbc. unfold leb in Hab. apply orb_true_iff in Hab as [H|H].
  - unfold leb. by rewrite (ltb_leb_trans _ _ _ H Hbc).
  - apply feqb_eq in H. by subst.
Qed.


(** On values that are not NaN the order is total. *)
Lemma ltb_total (a b : float) :
  is_nan a = false -> is_nan b = false ->
  ltb a b = true \/ a = b \/ ltb b a = true.
Proof.
  destruct a as [| |x|], b as [| |y|]; simpl; try done; auto.
  intros _ _. destruct (Qc_dec x y) as [[H|H]|H].
  - left. by apply Qcltb_lt.
  - right; right. by apply Qcltb_lt.
  - right; left. by subst.
Qed.

Lemma not_ltb_leb (a b : float) :
  is_nan a = false -> is_nan b = false -> ltb a b = false -> leb b a = true.
Proof.
  intros Ha Hb H. unfold leb.
  destruct (ltb_total a b Ha Hb) as [?|[->|?]]; try congruence.
  - destruct b; simpl in *; try done. by rewrite Qceqb_refl, orb_true_r.
  - by rewrite H0.
Qed.

Lemma leb_not_ltb (a b : float) : leb a b = true -> ltb b a = false.
Proof.
  unfold leb. intros [H|H]%orb_true_iff.
  - by apply ltb_asym.
  - apply feqb_eq in H. subst. apply ltb_irrefl.
Qed.

Lemma ltb_not_nan_r (a b : float) : ltb a b = true -> is_nan b = false.
Proof. by destruct a, b. Qed.

(* ================================================================== *)
(** * Masked assignment, pointwise *)
(* ================================================================== *)


Lemma assign_where_lookup {A} (m : list bool) (v : A) (l : list A) (i : nat) (b : bool) (x : A) :
  m !! i = Some b -> l !! i = Some x ->
  assign_where m v l !! i = Some (if b then v else x).
Proof.
  revert l i. induction m as [|b' m IH]; intros [|y l] [|i]; simpl; try done.
  - by intros [= ->] [= ->].
  - apply IH.
Qed.

Lemma assign_where_map {A} (p : A -> bool) (f : A -> float) (v : float) (l : list A) :
  assign_where (map p l) v (map f l) = map (fun x => if p x then v else f x) l.
Proof. induction l as [|x l IH]; simpl; by rewrite ?IH. Qed.

Lemma mask_and_lookup (a b : list bool) (i : nat) x y :
  a !! i = Some x -> b !! i = Some y -> mask_and a b !! i = Some (x && y).
Proof. intros Ha Hb. unfold mask_and. by rewrite lookup_zip_with, Ha, Hb. Qed.

Lemma mask_or_lookup (a b : list bool) (i : nat) x y :
  a !! i = Some x -> b !! i = Some y -> mask_or a b !! i = Some (x || y).
Proof. intros Ha Hb. unfold mask_or. by rewrite lookup_zip_with, Ha, Hb. Qed.

Lemma map_lookup_Some {A B} (f : A -> B) (l : list A) (i : nat) x :
  l !! i = Some x -> map f l !! i = Some (f x).
Proof. intros H. change (map f l) with (f <$> l). by rewrite list_lookup_fmap, H. Qed.

Ltac mask_lookup :=
  repeat first
    [ apply mask_and_lookup
    | apply mask_or_lookup
    | match goal with
      | |- map ?f ?l !! _ = _ => apply (map_lookup_Some f l); eassumption
      end ].

Lemma outside_band_lookup cfg JzJcirc (i : nat) r :
  JzJcirc !! i = Some r ->
  outside_band cfg JzJcirc !! i = Some (out_of_band cfg r).
Proof. intros. unfold outside_band, out_of_band. mask_lookup. Qed.

Lemma disk_mask_lookup cfg JzJcirc (i : nat) r :
  JzJcirc !! i = Some r ->
  disk_mask cfg JzJcirc !! i = Some (in_disk_band cfg r).
Proof. intros. unfold disk_mask, in_disk_band. mask_lookup. Qed.

Lemma halo_mask_lookup E_cut j_crit te JzJcirc (i : nat) e r :
  te !! i = Some e -> JzJcirc !! i = Some r ->
  halo_mask E_cut j_crit te JzJcirc !! i = Some (is_halo E_cut j_crit e r).
Proof. intros. unfold halo_mask, is_halo. mask_lookup. Qed.

Lemma bulge_mask_lookup E_cut j_crit te JzJcirc (i : nat) e r :
  te !! i = Some e -> JzJcirc !! i = Some r ->
  bulge_mask E_cut j_crit te JzJcirc !! i = Some (is_bulge E_cut j_crit e r).
Proof. intros. unfold bulge_mask, is_bulge. mask_lookup. Qed.

Lemma thick_mask_lookup cfg E_cut j_crit te JzJcirc (i : nat) e r :
  te !! i = Some e -> JzJcirc !! i = Some r ->
  thick_mask cfg E_cut j_crit te JzJcirc !! i
  = Some (is_thick cfg E_cut j_crit e r).
Proof.
  intros. unfold thick_mask, is_thick.
  apply mask_and_lookup; [mask_lookup | by apply outside_band_lookup].
Qed.

Lemma pbulge_mask_lookup cfg E_cut j_crit te JzJcirc (i : nat) e r :
  te !! i = Some e -> JzJcirc !! i = Some r ->
  pbulge_mask cfg E_cut j_crit te JzJcirc !! i
  = Some (is_pbulge cfg E_cut j_crit e r).
Proof.
  intros. unfold pbulge_mask, is_pbulge.
  apply mask_and_lookup; [mask_lookup | by apply outside_band_lookup].
Qed.

(** The array code and the per-star reading agree. *)
Lemma classify_stars_lookup cfg E_cut j_crit te JzJcirc labels (i : nat) e r p :
  te !! i = Some e -> JzJcirc !! i = Some r -> labels !! i = Some p ->
  classify_stars cfg E_cut j_crit te JzJcirc labels !! i
  = Some (label_of cfg E_cut j_crit e r p).
Proof.
  intros He Hr Hp. unfold classify_stars, label_of.
  rewrite (assign_where_lookup _ _ _ _ _ _
             (pbulge_mask_lookup cfg E_cut j_crit _ _ _ _ _ He Hr)
             (assign_where_lookup _ _ _ _ _ _
                (thick_mask_lookup cfg E_cut j_crit _ _ _ _ _ He Hr)
                (assign_where_lookup _ _ _ _ _ _
                   (bulge_mask_lookup E_cut j_crit _ _ _ _ _ He Hr)
                   (assign_where_lookup _ _ _ _ _ _
                      (halo_mask_lookup E_cut j_crit _ _ _ _ _ He Hr)
                      (assign_where_lookup _ _ _ _ _ _
                         (disk_mask_lookup cfg _ _ _ Hr) Hp))))).
  reflexivity.
Qed.


(** The ratio used for classification never lies above [j_disk_min]. *)
Lemma reset_j_crit_bound cfg j :
  gtb (reset_j_crit cfg j) (j_disk_min cfg) = false.
Proof.
  unfold reset_j_crit. destruct (gtb j (j_disk_min cfg)) eqn:H; [|done].
  apply ltb_irrefl.
Qed.

(** What [find_j_crit] returns and logs. *)
Lemma find_j_crit_run C cfg V JzJcirc w :
  let j := bisect C (F 0 1) (F 5 1) (objective V JzJcirc) in
  find_j_crit C cfg V JzJcirc w
  = (inr (reset_j_crit cfg j),
     {| sim := sim w;
        logged :=
          if gtb j (j_disk_min cfg)
          then ((logged w ++ [{| lvl := INFO; fmt := "j_crit = %.2e"; args := [j] |}])
                 ++ [{| lvl := WARNING;
                        fmt := "!! j_crit exceeds j_disk_min. This is usually a sign that something is going wrong (train-wreck galaxy?)";
                        args := [] |}])
                 ++ [{| lvl := WARNING;
                        fmt := "!! j_crit will be reset to j_disk_min=%.2e";
                        args := [j_disk_min cfg] |}]
          else logged w ++ [{| lvl := INFO; fmt := "j_crit = %.2e"; args := [j] |}] |}).
Proof.
  unfold find_j_crit, reset_j_crit, objective, bind, logger_info, logger_warning,
    log_call, ret. simpl.
  destruct (gtb _ (j_disk_min cfg)); reflexivity.
Qed.

(* ================================================================== *)
(** * The classifier (lines 175-217) *)
(* ================================================================== *)

Lemma classify_stars_one cfg E_cut j_crit e r p :
  classify_stars cfg E_cut j_crit [e] [r] [p] = [label_of cfg E_cut j_crit e r p].
Proof. reflexivity. Qed.

(** A star whose ratio equals [j_disk_min] matches none of the five rules
    and keeps the label it had. *)
Lemma label_of_lower_edge cfg E_cut j e p :
  ltb (j_disk_max cfg) (j_disk_min cfg) = false ->
  label_of cfg E_cut (reset_j_crit cfg j) e (j_disk_min cfg) p = p
  /\ rules_matched cfg E_cut (reset_j_crit cfg j) e (j_disk_min cfg) = 0%nat.
Proof.
  intros Hband.
  pose proof (reset_j_crit_bound cfg j) as Hj. unfold gtb in Hj.
  unfold label_of, rules_matched, is_pbulge, is_thick, is_bulge, is_halo,
    in_disk_band, out_of_band, gtb.
  rewrite Hj, Hband, !ltb_irrefl, !andb_false_r. simpl. done.
Qed.

(** C1, at a star the code leaves without a component: with the default
    band (0.8, 1.1), a star whose ratio is exactly 0.8 on a freshly
    created [decomp] array still carries 0 after both passes, whatever
    its energy, the energy cut and the solver's result. *)
Theorem C1_star_on_band_edge_gets_no_label (E_cut j_solved e : float) :
  classify_stars default_config E_cut (reset_j_crit default_config j_solved)
    [e] [F 8 10] [0] = [0]
  /\ rules_matched default_config E_cut (reset_j_crit default_config j_solved)
       e (F 8 10) = 0%nat.
Proof.
  rewrite classify_stars_one.
  destruct (label_of_lower_edge default_config E_cut j_solved e 0) as [H1 H2].
  - reflexivity.
  - split; [f_equal; exact H1 | exact H2].
Qed.

(** C5: a star inside the open disk band carries label 1 after pass 1 and
    still carries it after the four pass-2 assignments, provided the ratio
    used in pass 2 does not exceed [j_disk_min]. *)
Theorem C5_disk_band_label_survives cfg E_cut j_crit te JzJcirc labels
    (i : nat) e r p :
  te !! i = Some e -> JzJcirc !! i = Some r -> labels !! i = Some p ->
  gtb j_crit (j_disk_min cfg) = false ->
  in_disk_band cfg r = true ->
  assign_where (disk_mask cfg JzJcirc) 1 labels !! i = Some 1
  /\ is_halo E_cut j_crit e r = false
  /\ is_bulge E_cut j_crit e r = false
  /\ is_thick cfg E_cut j_crit e r = false
  /\ is_pbulge cfg E_cut j_crit e r = false
  /\ classify_stars cfg E_cut j_crit te JzJcirc labels !! i = Some 1.
Proof.
  intros He Hr Hp Hj Hband.
  assert (H1 : assign_where (disk_mask cfg JzJcirc) 1 labels !! i = Some 1).
  { rewrite (assign_where_lookup _ _ _ _ _ _ (disk_mask_lookup cfg _ _ _ Hr) Hp).
    by rewrite Hband. }
  pose proof Hband as Hb. unfold in_disk_band in Hb.
  apply andb_true_iff in Hb as [Hlo Hhi]. unfold gtb in Hlo, Hj.
  assert (Hlt : ltb r j_crit = false).
  { destruct (ltb r j_crit) eqn:E; [|done].
    by rewrite (ltb_trans _ _ _ Hlo E) in Hj. }
  assert (Hout : out_of_band cfg r = false).
  { unfold out_of_band, gtb.
    by rewrite (ltb_asym _ _ Hlo), (ltb_asym _ _ Hhi). }
  assert (Hh : is_halo E_cut j_crit e r = false)
    by (unfold is_halo; by rewrite Hlt, andb_false_r).
  assert (Hbu : is_bulge E_cut j_crit e r = false)
    by (unfold is_bulge; by rewrite Hlt, andb_false_r).
  assert (Ht : is_thick cfg E_cut j_crit e r = false)
    by (unfold is_thick; by rewrite Hout, andb_false_r).
  assert (Hpb : is_pbulge cfg E_cut j_crit e r = false)
    by (unfold is_pbulge; by rewrite Hout, andb_false_r).
  repeat split; try done.
  rewrite (classify_stars_lookup _ _ _ _ _ _ _ _ _ _ He Hr Hp).
  unfold label_of. by rewrite Hpb, Ht, Hbu, Hh, Hband.
Qed.

Lemma C5_witness :
  classify_stars default_config (F (-1) 1) (F 1 2)
    [F (-2) 1; F (-1) 2] [F 1 4; F 1 1] [0; 0] !! 1%nat = Some 1.
Proof.
  apply (C5_disk_band_label_survives default_config (F (-1) 1) (F 1 2)
           [F (-2) 1; F (-1) 2] [F 1 4; F 1 1] [0; 0] 1 (F (-1) 2) (F 1 1) 0);
    reflexivity.
Defined.

(* ================================================================== *)
(** * The critical ratio (lines 184-198) *)
(* ================================================================== *)

(** C2: [find_j_crit] never raises and leaves the snapshot alone; when the
    solver's result exceeds [j_disk_min] it returns exactly [j_disk_min]
    and logs the two warnings after the [j_crit] line, otherwise it
    returns the solver's result; in both cases what it returns does not
    exceed [j_disk_min]. *)
Theorem C2_j_crit_reset_to_j_disk_min (C : Collaborators) (cfg : Config)
    (V JzJcirc : list float) (w : World) :
  let j := bisect C (F 0 1) (F 5 1) (objective V JzJcirc) in
  let info := {| lvl := INFO; fmt := "j_crit = %.2e"; args := [j] |} in
  let warn1 :=
    {| lvl := WARNING;
       fmt := "!! j_crit exceeds j_disk_min. This is usually a sign that something is going wrong (train-wreck galaxy?)";
       args := [] |} in
  let warn2 :=
    {| lvl := WARNING; fmt := "!! j_crit will be reset to j_disk_min=%.2e";
       args := [j_disk_min cfg] |} in
  exists j_crit w',
    find_j_crit C cfg V JzJcirc w = (inr j_crit, w')
    /\ sim w' = sim w
    /\ gtb j_crit (j_disk_min cfg) = false
    /\ (if gtb j (j_disk_min cfg)
        then j_crit = j_disk_min cfg
             /\ logged w' = logged w ++ [info; warn1; warn2]
        else j_crit = j /\ logged w' = logged w ++ [info]).
Proof.
  intros j info warn1 warn2.
  eexists _, _. split; [apply find_j_crit_run|]. simpl.
  split; [done|]. split; [apply reset_j_crit_bound|].
  unfold reset_j_crit. fold j.
  destruct (gtb j (j_disk_min cfg)); split; try done.
  by rewrite <- !app_assoc.
Qed.

(** C10: the objective handed to the root finder is the mean over the
    stars below the threshold, with nothing in front of it: where no star
    lies below [c] it is the mean of an empty selection, NaN; and
    [find_j_crit] passes exactly this function to [bisect]. *)
Theorem C10_objective_undefined_below_all_ratios (C : Collaborators)
    (cfg : Config) (V JzJcirc : list float) (c : float) (w : World) :
  Forall (fun r => ltb r c = false) JzJcirc ->
  select (map (fun r => ltb r c) JzJcirc) V = []
  /\ objective V JzJcirc c = NaN
  /\ (find_j_crit C cfg V JzJcirc w).1
     = inr (reset_j_crit cfg (bisect C (F 0 1) (F 5 1) (objective V JzJcirc))).
Proof.
  intros Hall.
  assert (Hsel : select (map (fun r => ltb r c) JzJcirc) V = []).
  { revert V. induction Hall as [|r l Hr _ IH]; intros [|v V]; simpl; try done.
    rewrite Hr. apply IH. }
  split; [done|]. split.
  - unfold objective. rewrite Hsel. reflexivity.
  - by rewrite find_j_crit_run.
Qed.

Lemma C10_witness :
  objective [F 3 1; F (-1) 1] [F 1 2; F 3 4] (F 1 4) = NaN.
Proof.
  apply (C10_objective_undefined_below_all_ratios toy default_config
           [F 3 1; F (-1) 1] [F 1 2; F 3 4] (F 1 4) (world_of example_aligned)).
  repeat constructor.
Defined.

(* ================================================================== *)
(** * Runs that return *)
(* ================================================================== *)

Lemma bind_inr {A B} (m : M A) (k : A -> M B) w b w' :
  bind m k w = (inr b, w') ->
  exists a w1, m w = (inr a, w1) /\ k a w1 = (inr b, w').
Proof.
  unfold bind. destruct (m w) as [[e|a] w1]; [done|]. eauto.
Qed.

Lemma getitem_inr name w a w1 :
  getitem name w = (inr a, w1) -> arrays (sim w) !! name = Some a /\ w1 = w.
Proof.
  unfold getitem, bind, get_sim, lift_opt.
  destruct (arrays (sim w) !! name); naive_solver.
Qed.

Lemma setitem_inr name a w u w1 :
  setitem name a w = (inr u, w1) ->
  w1 = {| sim := set_arrays (<[name := a]> (arrays (sim w))) (sim w);
          logged := logged w |}.
Proof. unfold setitem, bind, get_sim, put_sim. naive_solver. Qed.

Lemma lift_inr {A} (r : exn + A) w a w1 :
  lift r w = (inr a, w1) -> r = inr a /\ w1 = w.
Proof. unfold lift. naive_solver. Qed.

Lemma lift_opt_inr {A} e (o : option A) w a w1 :
  lift_opt e o w = (inr a, w1) -> o = Some a /\ w1 = w.
Proof. unfold lift_opt. destruct o; naive_solver. Qed.

Lemma get_sim_inr w h w1 : get_sim w = (inr h, w1) -> h = sim w /\ w1 = w.
Proof. unfold get_sim. naive_solver. Qed.

Lemma ret_inr {A} (a : A) w b w1 : ret a w = (inr b, w1) -> b = a /\ w1 = w.
Proof. unfold ret. naive_solver. Qed.

Lemma put_sim_inr h w u w1 :
  put_sim h w = (inr u, w1) -> w1 = {| sim := h; logged := logged w |}.
Proof. unfold put_sim. naive_solver. Qed.

Lemma log_call_inr l f xs w u w1 :
  log_call l f xs w = (inr u, w1) ->
  w1 = {| sim := sim w;
          logged := logged w ++ [{| lvl := l; fmt := f; args := xs |}] |}.
Proof. unfold log_call. naive_solver. Qed.

Lemma star_assign_inr name mask v w u w1 :
  star_assign name mask v w = (inr u, w1) ->
  exists a, star_arrays (sim w) !! name = Some a
    /\ w1 = {| sim := set_star_arrays
                        (<[name := assign_where mask v a]> (star_arrays (sim w)))
                        (sim w);
               logged := logged w |}.
Proof.
  unfold star_assign, star_getitem, bind, get_sim, put_sim, lift_opt.
  destruct (star_arrays (sim w) !! name); naive_solver.
Qed.

Lemma create_decomp_if_absent_inr w u w1 :
  create_decomp_if_absent w = (inr u, w1) ->
  w1 = {| sim := set_star_arrays
                   (<["decomp" := prior_labels (sim w)]> (star_arrays (sim w)))
                   (sim w);
          logged := logged w |}.
Proof.
  unfold create_decomp_if_absent, prior_labels, bind, get_sim, put_sim, ret.
  destruct (star_arrays (sim w) !! "decomp") as [l|] eqn:E; simpl.
  - intros [= <-]. rewrite insert_id by done. by destruct w as [[]].
  - by intros [= <-].
Qed.

Lemma set_arrays_twice m m' h : set_arrays m (set_arrays m' h) = set_arrays m h.
Proof. reflexivity. Qed.
Lemma set_star_arrays_twice m m' h :
  set_star_arrays m (set_star_arrays m' h) = set_star_arrays m h.
Proof. reflexivity. Qed.
Lemma star_view_set_arrays {A} m h (l : list A) :
  star_view (set_arrays m h) l = star_view h l.
Proof. reflexivity. Qed.
Lemma star_view_set_star_arrays {A} m h (l : list A) :
  star_view (set_star_arrays m h) l = star_view h l.
Proof. reflexivity. Qed.
Lemma star_view_set_frame {A} pv h (l : list A) :
  star_view (set_frame pv h) l = star_view h l.
Proof. reflexivity. Qed.

(** Brings the snapshot reached after some steps into a normal form. *)
Ltac norm_in H :=
  simpl in H;
  repeat first
    [ rewrite set_arrays_twice in H
    | rewrite set_star_arrays_twice in H
    | rewrite star_view_set_arrays in H
    | rewrite star_view_set_star_arrays in H
    | rewrite insert_insert_eq in H
    | rewrite lookup_insert_eq in H
    | rewrite lookup_insert_ne in H by done ].

Ltac norm_all :=
  repeat match goal with H : _ |- _ => progress norm_in H end.

(** Inverts one primitive step. *)
Ltac inv_prim H :=
  lazymatch type of H with
  | getitem _ _ = _ => apply getitem_inr in H as [H ->]
  | setitem _ _ _ = _ => apply setitem_inr in H as ->
  | logger_info _ _ _ = _ => apply log_call_inr in H as ->
  | logger_warning _ _ _ = _ => apply log_call_inr in H as ->
  | create_decomp_if_absent _ = _ => apply create_decomp_if_absent_inr in H as ->
  | star_assign _ _ _ _ = _ =>
      let l := fresh "labels" in apply star_assign_inr in H as (l & H & ->)
  | find_j_crit _ _ _ _ _ = _ =>
      rewrite find_j_crit_run in H; apply pair_equal_spec in H as [H <-];
      apply (inj inr) in H as <-
  | lift_opt _ _ _ = _ => apply lift_opt_inr in H as [H ->]
  | lift _ _ = _ => apply lift_inr in H as [H ->]
  | get_sim _ = _ => apply get_sim_inr in H as [-> ->]
  | put_sim _ _ = _ => apply put_sim_inr in H as ->
  | ret _ _ = _ => apply ret_inr in H as [-> ->]
  end.

(** Splits the run of [x <~ m ;; k] into the run of [m] and that of [k]. *)
Ltac step H :=
  let a := fresh "a" in
  let w1 := fresh "w" in
  let H1 := fresh "Hs" in
  cbv beta in H;
  lazymatch type of H with
  | bind _ _ _ = _ =>
      apply bind_inr in H as (a & w1 & H1 & H); cbv beta in H;
      try (inv_prim H1; norm_in H; try norm_in H1)
  end.

Lemma j_circ_from_energy_inr C cfg u pro w x w' :
  j_circ_from_r cfg = false ->
  j_circ_from_energy C cfg u pro w = (inr x, w') ->
  exists te jc A,
    arrays (sim w) !! "te" = Some te
    /\ j_circ_attached C cfg u pro (sim w) te jc A
    /\ A !! "j_circ" = Some jc
    /\ w' = {| sim := set_arrays A (sim w); logged := logged w |}.
Proof.
  unfold j_circ_from_energy. intros Hr H.
  step H.
  assert (exists te E f, arrays (sim w) !! "te" = Some te
    /\ in_units (E_circ C pro) u = inr E
    /\ interp1d_new (interp_x C cfg (data E))
                    (interp_y C cfg (data (j_circ C pro))) = inr f
    /\ w0 = {| sim := set_arrays
                 (<["j_circ" :=
                      {| data := map (interpolated C cfg f) (data te);
                         units := no_unit |}]> (arrays (sim w))) (sim w);
               logged := logged w |}) as (te & E & f & Hte & HE & Hf & ->).
  { unfold interp_x, interp_y, interpolated.
    destruct (log_interp cfg); do 3 step Hs; inv_prim Hs; eauto 10. }
  clear Hs.
  repeat step H. inv_prim H.
  simpl in *. simplify_map_eq.
  eexists _, _, _. split; [reflexivity|].
  split; [eapply attached_by_energy; eassumption|].
  split; [by rewrite lookup_insert_eq|].
  unfold set_arrays; simpl. rewrite !insert_insert_eq, !assign_where_map.
  reflexivity.
Qed.

Lemma decomp_body_inr C cfg w pro w' :
  decomp_body C cfg w = (inr pro, w') ->
  decomp_returns C cfg (sim w) pro (sim w').
Proof.
  unfold decomp_body. intros H.
  repeat step H. norm_all. simplify_eq.
  destruct (particles_per_bin cfg =? 0) eqn:Hppb; [done|].
  apply Z.eqb_neq in Hppb.
  step H. step H.
  match goal with Hp : Profile_new _ _ _ = inr ?p |- _ => rename p into pro0 end.
  match goal with Hm : amax _ = Some ?m |- _ => rename m into te_max end.
  match goal with Hi : in_units _ _ = inr ?p |- _ => rename p into pe end.
  match goal with
  | Hj : (if j_circ_from_r cfg then _ else _) ?w0 = (inr _, ?w1) |- _ =>
      assert (exists jc A,
        j_circ_attached C cfg (units (derived_ke C (vel (sim w))))
          (set_pro_phi (arr_sub_scalar (pro_phi pro0) te_max) pro0)
          (sim w0)
          (arr_sub_scalar (arr_add (derived_ke C (vel (sim w))) pe) te_max) jc A
        /\ A !! "j_circ" = Some jc
        /\ A !! "te"
           = Some (arr_sub_scalar (arr_add (derived_ke C (vel (sim w))) pe) te_max)
        /\ w1 = {| sim := set_arrays A (sim w0); logged := logged w0 |})
        as (jc & A & Hatt & HA & HAte & ->);
      [ destruct (j_circ_from_r cfg) eqn:Hr;
        [ repeat step Hj; inv_prim Hj; norm_all;
          eexists _, _; split; [by apply attached_by_radius|];
          simpl; by simplify_map_eq
        | apply j_circ_from_energy_inr in Hj
            as (te & jc & A & Hte & Hatt & HA & ->); [|done];
          norm_in Hte; simplify_eq;
          eexists _, _; split; [eassumption|]; split; [done|]; split; [|done];
          inversion Hatt; simplify_eq; simpl; by simplify_map_eq ]
      | clear Hj ]
  end.
  repeat step H. inv_prim H.
  match goal with
  | He : ?m ?w1 = (inr ?e, ?w2) |- _ =>
      lazymatch m with
      | context [median] =>
          assert (e = match E_cut cfg with
                      | None => median (star_view (sim w)
                          (data (arr_sub_scalar
                                   (arr_add (derived_ke C (vel (sim w))) pe) te_max)))
                      | Some e => e
                      end /\ w2 = w1) as [-> ->];
          [ destruct (E_cut cfg);
            [ by inv_prim He
            | repeat step He; inv_prim He; by simplify_eq ]
          | clear He ]
      end
  end.
  norm_all. simplify_eq. simpl.
  change (prior_labels (set_arrays ?m (sim w))) with (prior_labels (sim w)).
  unfold set_star_arrays, set_arrays. simpl. rewrite !insert_insert_eq.
  eapply (decomp_returns_intro C cfg (sim w)); eauto.
Qed.

(* ================================================================== *)
(** * Maxima and minima *)
(* ================================================================== *)









Lemma leb_not_nan_r a b : leb a b = true -> is_nan b = false.
Proof. by destruct a, b. Qed.









(* ================================================================== *)
(** * The whole of [decomp] *)
(* ================================================================== *)

Lemma set_frame_same h : set_frame (pos h, vel h) h = h.
Proof. by destruct h. Qed.

(** A run of [decomp] that returns: the transformation it entered, the
    run of the body in the aligned frame, and the frame taken back. *)
Lemma decomp_inr C cfg w pro w' :
  decomp C cfg w = (inr pro, w') ->
  exists tx h_out,
    (if aligned cfg then tx = NullTransformation
     else faceon C (sim w) (angmom_size cfg) = inr tx)
    /\ decomp_returns C cfg
         (set_frame (forward tx (pos (sim w), vel (sim w))) (sim w)) pro h_out
    /\ sim w' = set_frame (backward tx (pos h_out, vel h_out)) h_out.
Proof.
  unfold decomp. intros H. step H.
  assert (exists tx,
    a = tx
    /\ (if aligned cfg then tx = NullTransformation
        else faceon C (sim w) (angmom_size cfg) = inr tx)
    /\ w0 = {| sim := set_frame (forward tx (pos (sim w), vel (sim w))) (sim w);
               logged := logged w |}) as (tx & -> & Htx & ->).
  { destruct (aligned cfg).
    - inv_prim Hs. eexists. split; [done|]. split; [done|].
      simpl. rewrite set_frame_same. by destruct w.
    - unfold apply_faceon in Hs. repeat step Hs. inv_prim Hs. eauto. }
  clear Hs. unfold with_tx in H.
  destruct (decomp_body C cfg _) as [r w1] eqn:Hb. simplify_eq.
  apply decomp_body_inr in Hb. simpl in Hb. eauto.
Qed.


Lemma example_run_returns :
  exists pro w',
    decomp toy example_config (world_of example_snapshot) = (inr pro, w').
Proof.
  destruct (decomp toy example_config (world_of example_snapshot))
    as [[e|pro] w'] eqn:H.
  - exfalso.
    assert (Hok : match (decomp toy example_config (world_of example_snapshot)).1
                  with inr _ => true | inl _ => false end = true)
      by (vm_compute; reflexivity).
    by rewrite H in Hok.
  - eauto.
Defined.



(* ================================================================== *)
(** * The interpolant never goes below zero *)
(* ================================================================== *)























(* ================================================================== *)
(** * The axes of the interpolant (lines 150-158) *)
(* ================================================================== *)

#[global] Instance fle_trans : Transitive fle.
Proof. intros a b c. unfold fle. apply leb_trans. Qed.















(* ================================================================== *)
(** * What [decomp] leaves untouched, on every exit path *)
(* ================================================================== *)


Lemma preserves_bind {A B} I (m : M A) (k : A -> M B) :
  preserves I m -> (forall a, preserves I (k a)) -> preserves I (bind m k).
Proof.
  intros Hm Hk w Hw. unfold bind.
  specialize (Hm w Hw). destruct (m w) as [[e|a] w1]; simpl in *; [done|].
  by apply Hk.
Qed.

Lemma preserves_lift_opt {A} I e (o : option A) : preserves I (lift_opt e o).
Proof. by intros w. Qed.
Lemma preserves_get_sim I : preserves I get_sim.
Proof. by intros w. Qed.


Lemma preserves_star_getitem I name : preserves I (star_getitem name).
Proof.
  unfold star_getitem. apply preserves_bind; [apply preserves_get_sim|].
  intros h. apply preserves_lift_opt.
Qed.








Lemma fmul_one (x : float) : fmul x (Fin Qc1) = x.
Proof.
  destruct x; simpl; try done. f_equal. unfold Qc1. ring.
Qed.

(** Converting an array to the units it already has changes nothing. *)
Lemma in_units_same (a : SimArray) : in_units a (units a) = inr a.
Proof.
  unfold in_units, ratio, same_dimension. rewrite !Z.eqb_refl. simpl.
  assert (H1 : F (Z.pos (u_num (units a) * u_den (units a)))
                 (u_den (units a) * u_num (units a)) = Fin Qc1).
  { unfold F, Qc1. f_equal. apply Qc_is_canon. simpl.
    rewrite !Qred_correct. unfold Qeq. simpl. lia. }
  rewrite H1. f_equal. destruct a as [l u]. simpl. f_equal.
  induction l as [|x l IH]; simpl; [done|]. by rewrite fmul_one, IH.
Qed.








(* ================================================================== *)
(** * estimate_jcirc_from_energy (lines 15-42) *)
(* ================================================================== *)


(* ================================================================== *)
(** * Running the body forwards *)
(* ================================================================== *)

Lemma bind_returns {A B} (m : M A) (k : A -> M B) w a w1 r :
  m w = (inr a, w1) -> k a w1 = r -> bind m k w = r.
Proof. unfold bind. by intros -> <-. Qed.

Lemma getitem_returns name w a :
  arrays (sim w) !! name = Some a -> getitem name w = (inr a, w).
Proof. unfold getitem, bind, get_sim, lift_opt. by intros ->. Qed.

Lemma setitem_returns name a w :
  setitem name a w
  = (inr tt, {| sim := set_arrays (<[name := a]> (arrays (sim w))) (sim w);
                logged := logged w |}).
Proof. reflexivity. Qed.

Lemma lift_returns {A} (r : exn + A) a w : r = inr a -> lift r w = (inr a, w).
Proof. by intros ->. Qed.

Lemma lift_opt_returns {A} e (o : option A) a w :
  o = Some a -> lift_opt e o w = (inr a, w).
Proof. by intros ->. Qed.

Lemma star_assign_returns name mask v w a :
  star_arrays (sim w) !! name = Some a ->
  star_assign name mask v w
  = (inr tt, {| sim := set_star_arrays
                         (<[name := assign_where mask v a]> (star_arrays (sim w)))
                         (sim w);
                logged := logged w |}).
Proof.
  unfold star_assign, star_getitem, bind, get_sim, put_sim, lift_opt.
  by intros ->.
Qed.

Lemma create_decomp_if_absent_returns w :
  create_decomp_if_absent w
  = (inr tt, {| sim := set_star_arrays
                         (<["decomp" := prior_labels (sim w)]> (star_arrays (sim w)))
                         (sim w);
                logged := logged w |}).
Proof.
  unfold create_decomp_if_absent, prior_labels, bind, get_sim, put_sim, ret.
  destruct (star_arrays (sim w) !! "decomp") as [l|] eqn:E; simpl.
  - rewrite insert_id by done. by destruct w as [[]].
  - reflexivity.
Qed.

(** Brings the goal's snapshot into the normal form of [norm_in]. *)
Ltac norm_goal :=
  simpl;
  repeat first
    [ rewrite set_arrays_twice
    | rewrite set_star_arrays_twice
    | rewrite star_view_set_arrays
    | rewrite star_view_set_star_arrays
    | rewrite insert_insert_eq
    | rewrite lookup_insert_eq
    | rewrite lookup_insert_ne by done ].

(** Runs one primitive that returns. *)
Ltac run_prim :=
  lazymatch goal with
  | |- getitem _ _ = _ => apply getitem_returns; norm_goal; first [eassumption | reflexivity]
  | |- setitem _ _ _ = _ => apply setitem_returns
  | |- logger_info _ _ _ = _ => reflexivity
  | |- logger_warning _ _ _ = _ => reflexivity
  | |- create_decomp_if_absent _ = _ => apply create_decomp_if_absent_returns
  | |- star_assign _ _ _ _ = _ =>
      apply star_assign_returns; norm_goal; first [eassumption | reflexivity]
  | |- find_j_crit _ _ _ _ _ = _ => apply find_j_crit_run
  | |- lift_opt _ _ _ = _ => apply lift_opt_returns; norm_goal; eassumption
  | |- lift _ _ = _ => apply lift_returns; norm_goal; eassumption
  | |- get_sim _ = _ => reflexivity
  | |- put_sim _ _ = _ => reflexivity
  | |- ret _ _ = _ => reflexivity
  end.

(** Runs the first step of [x <~ m ;; k] and goes on with [k]. *)
Ltac run :=
  cbv beta;
  lazymatch goal with
  | |- bind _ _ _ = _ => eapply bind_returns; [run_prim|]; cbv beta; norm_goal
  end.

Lemma j_circ_from_energy_returns C cfg u pro w te jc A :
  j_circ_from_r cfg = false ->
  arrays (sim w) !! "te" = Some te ->
  j_circ_attached C cfg u pro (sim w) te jc A ->
  j_circ_from_energy C cfg u pro w
  = (inr tt, {| sim := set_arrays A (sim w); logged := logged w |}).
Proof.
  intros Hr Hte Hatt.
  destruct Hatt as [Hr'|E f E_max E_min j0 _ HE Hf Hmax Hmin Hj0 jc];
    [congruence|].
  unfold j_circ_from_energy.
  eapply bind_returns.
  { instantiate (1 := {| sim := set_arrays
        (<["j_circ" := {| data := map (interpolated C cfg f) (data te);
                          units := no_unit |}]> (arrays (sim w))) (sim w);
      logged := logged w |}).
    instantiate (1 := tt).
    unfold interp_x, interp_y, interpolated in *.
    destruct (log_interp cfg); repeat run; run_prim. }
  cbv beta. repeat run.
  rewrite setitem_returns. norm_goal. subst jc.
  rewrite !assign_where_map. reflexivity.
Qed.

(** A run of the body that the specification describes does return, and
    leaves the snapshot the specification names. *)
Lemma decomp_body_returns C cfg w pro h' :
  decomp_returns C cfg (sim w) pro h' ->
  exists w', decomp_body C cfg w = (inr pro, w') /\ sim w' = h'.
Proof.
  intros H.
  destruct H as [phi0 pe te_max eps eps_min pro0 jc A ke Hphi Hpe Hmax te
                 Heps Hmin Hppb h_te d Hpro pro1 Hatt jz JzJcirc te_star V j_crit E].
  eexists. split.
  - unfold decomp_body. repeat run.
    destruct (particles_per_bin cfg =? 0) eqn:Hz; [by apply Z.eqb_eq in Hz|].
    repeat run.
    assert (A !! "j_circ" = Some jc /\ A !! "te" = Some te) as [HAj HAte].
    { destruct Hatt; subst te; simpl; by simplify_map_eq. }
    lazymatch goal with
    | |- bind ?m _ ?W = _ =>
        assert (Hblock : m W = (inr tt, {| sim := set_arrays A (sim W);
                                           logged := logged W |}))
    end.
    { destruct (j_circ_from_r cfg) eqn:Hr.
      - destruct Hatt as [_ jc|]; [|congruence]. repeat run. reflexivity.
      - apply j_circ_from_energy_returns with (te := te) (jc := jc);
          [done| |exact Hatt].
        simpl. by rewrite lookup_insert_eq. }
    eapply bind_returns; [exact Hblock|]. clear Hblock.
    cbv beta. norm_goal. repeat run.
    lazymatch goal with
    | |- bind ?m _ ?W = _ => assert (Hcut : m W = (inr E, W))
    end.
    { subst E te_star. destruct (E_cut cfg); [reflexivity|].
      repeat run. reflexivity. }
    eapply bind_returns; [exact Hcut|]. clear Hcut.
    cbv beta. repeat run. reflexivity.
  - simpl. unfold set_star_arrays, set_arrays. simpl.
    change (prior_labels _) with (prior_labels (sim w)).
    reflexivity.
Qed.

(* ================================================================== *)
(** * Running [decomp] a second time *)
(* ================================================================== *)

Lemma assign_where_lookup_total {A} (m : list bool) (v : A) (l : list A) (i : nat) :
  assign_where m v l !! i
  = (fun x => if default false (m !! i) then v else x) <$> (l !! i).
Proof.
  revert l i. induction m as [|b m IH]; intros [|x l] [|i]; simpl;
    try done; try apply IH.
  by destruct (l !! i).
Qed.

(** The five assignments, made again on their own result, change nothing. *)
Lemma classify_stars_idempotent cfg E_cut j_crit te JzJcirc labels :
  classify_stars cfg E_cut j_crit te JzJcirc
    (classify_stars cfg E_cut j_crit te JzJcirc labels)
  = classify_stars cfg E_cut j_crit te JzJcirc labels.
Proof.
  apply list_eq. intros i. unfold classify_stars.
  rewrite !assign_where_lookup_total.
  destruct (labels !! i) as [p|]; simpl; [|done].
  repeat destruct (default false _); reflexivity.
Qed.

Lemma in_units_units a u b : in_units a u = inr b -> units b = u.
Proof.
  unfold in_units. repeat case_match; try done; intros [= <-]; done.
Qed.

Lemma not_attached_after_profile k :
  k ∉ attached_after_profile ->
  k <> "j_circ" /\ k <> "E_circ" /\ k <> "jz_by_jzcirc".
Proof.
  unfold attached_after_profile. intros Hk.
  repeat split; intros ->; apply Hk;
    repeat first [apply list_elem_of_here | apply list_elem_of_further].
Qed.

(** Decides whether the key looked up is a given one, and settles the
    case in which it is. *)
Ltac key_case k s :=
  destruct (decide (k = s)) as [->|];
  [ repeat first [rewrite lookup_insert_eq | rewrite lookup_insert_ne by done];
    reflexivity |].

(** On the snapshot a returning run leaves, a second run returns the same
    profile and leaves the snapshot as it is. *)
Lemma decomp_returns_again C cfg h pro h1 :
  profile_reads_inputs_only C ->
  decomp_returns C cfg h pro h1 ->
  decomp_returns C cfg h1 pro h1.
Proof.
  intros HP H.
  destruct H as [phi0 pe te_max eps eps_min pro0 jc A ke Hphi Hpe Hmax te
                 Heps Hmin Hppb h_te d Hpro pro1 Hatt jz JzJcirc te_star V j_crit E].
  set (L := classify_stars cfg E j_crit te_star JzJcirc (prior_labels h)).
  set (h1 := {| families := families h; pos := pos h; vel := vel h;
                arrays := <["jz_by_jzcirc" := jz]> A;
                star_arrays := <["decomp" := L]> (star_arrays h) |}).
  assert (HA : forall k, k ∉ attached_after_profile ->
                 A !! k = arrays h_te !! k).
  { intros k (? & ? & ?)%not_attached_after_profile.
    destruct Hatt; by rewrite ?lookup_insert_ne by done. }
  set (h1_te := set_arrays (<["te" := te]> (<["phi" := pe]> (arrays h1))) h1).
  assert (exists A', j_circ_attached C cfg (units ke) pro1 h1_te te jc A'
                     /\ <["jz_by_jzcirc" := jz]> A' = <["jz_by_jzcirc" := jz]> A)
    as (A' & Hatt' & HA').
  { destruct Hatt as [Hr jc|E0 f E_max E_min j0 Hr HE Hf HEmax HEmin Hj0 jc].
    - eexists. split; [exact (attached_by_radius C cfg _ pro1 h1_te te Hr)|].
      apply map_eq. intros k. subst h1_te h1 h_te. simpl.
      key_case k "jz_by_jzcirc". key_case k "E_circ". key_case k "j_circ".
      key_case k "te". key_case k "phi".
      by rewrite !lookup_insert_ne by done.
    - eexists. split.
      + exact (attached_by_energy C cfg _ pro1 h1_te te E0 f E_max E_min j0
                 Hr HE Hf HEmax HEmin Hj0).
      + apply map_eq. intros k. subst h1_te h1 h_te. simpl.
        key_case k "jz_by_jzcirc". key_case k "j_circ".
        key_case k "te". key_case k "phi".
        by rewrite !lookup_insert_ne by done. }
  assert (Hin : forall k, k ∈ ["phi"; "eps"] -> k ∉ attached_after_profile).
  { intros k Hk Hk'. unfold attached_after_profile in Hk'.
    repeat (apply elem_of_cons in Hk as [->|Hk];
            [repeat (apply elem_of_cons in Hk' as [?|Hk']; [done|]);
             by apply elem_of_nil in Hk'|]).
    by apply elem_of_nil in Hk. }
  assert (Hphi1 : arrays h1 !! "phi" = Some pe).
  { simpl. rewrite lookup_insert_ne by done.
    rewrite HA by (apply Hin; apply list_elem_of_here).
    simpl. rewrite lookup_insert_ne by done. apply lookup_insert_eq. }
  assert (Heps1 : arrays h1 !! "eps" = Some eps).
  { simpl. rewrite lookup_insert_ne by done.
    rewrite HA by (apply Hin; apply list_elem_of_further, list_elem_of_here).
    simpl. by rewrite !lookup_insert_ne by done. }
  assert (Hpe1 : in_units pe (units ke) = inr pe).
  { rewrite <- (in_units_units _ _ _ Hpe) at 1. apply in_units_same. }
  eapply (eq_rect _ (decomp_returns C cfg h1 pro1)).
  - eapply (decomp_returns_intro C cfg h1 pe pe te_max eps eps_min pro0 jc A');
      try eassumption.
    rewrite <- Hpro. apply HP.
    split; [done|]. split; [done|]. split; [done|].
    intros k Hk. simpl. rewrite !lookup_fmap. f_equal.
    key_case k "te". key_case k "phi".
    rewrite !lookup_insert_ne by done.
    apply not_attached_after_profile in Hk as Hk'. destruct Hk' as (? & ? & ?).
    rewrite lookup_insert_ne by done. rewrite (HA _ Hk). simpl.
    by rewrite !lookup_insert_ne by done.
  - change (arr_div (derived_jz C (pos h1) (vel h1)) jc) with jz.
    rewrite HA'.
    change (prior_labels h1) with
      (default (replicate (length (star_view h (families h))) 0)
               (<["decomp" := L]> (star_arrays h) !! "decomp")).
    rewrite lookup_insert_eq. simpl default.
    change (classify_stars _ _ _ _ _ L)
      with (classify_stars cfg E j_crit te_star JzJcirc L).
    unfold L at 1. rewrite classify_stars_idempotent. fold L.
    subst h1. simpl. by rewrite insert_insert_eq.
Qed.

(** C8: on a snapshot that is already aligned, with a reference profile
    that is a function of its inputs, a call of [decomp] that returns can
    be made again with the same parameters: the second call returns too,
    with the same profile, and every star carries the label the first
    call gave it; indeed the second call leaves the whole snapshot as the
    first one left it. *)
Theorem C8_second_run_gives_same_labels C cfg w pro w1 :
  aligned cfg = true ->
  profile_reads_inputs_only C ->
  decomp C cfg w = (inr pro, w1) ->
  exists w2 labels,
    decomp C cfg w1 = (inr pro, w2)
    /\ star_arrays (sim w1) !! "decomp" = Some labels
    /\ star_arrays (sim w2) !! "decomp" = Some labels
    /\ sim w2 = sim w1.
Proof.
  intros Hal HP Hrun.
  apply decomp_inr in Hrun as (tx & h_out & Htx & Hret & Hw1).
  rewrite Hal in Htx. subst tx. simpl in Hret, Hw1.
  rewrite set_frame_same in Hret. rewrite set_frame_same in Hw1.
  assert (Hlab : exists labels, star_arrays h_out !! "decomp" = Some labels).
  { destruct Hret. eexists. simpl. apply lookup_insert_eq. }
  destruct Hlab as (labels & Hlab).
  apply (decomp_returns_again _ _ _ _ _ HP) in Hret.
  rewrite <- Hw1 in Hret, Hlab.
  apply decomp_body_returns in Hret as (w' & Hbody & Hw').
  exists {| sim := set_frame (pos (sim w'), vel (sim w')) (sim w');
            logged := logged w' |}, labels.
  split.
  - unfold decomp. rewrite Hal.
    eapply bind_returns; [reflexivity|].
    unfold with_tx. by rewrite Hbody.
  - simpl. rewrite set_frame_same, Hw'. done.
Qed.

Lemma toy_profile_reads_inputs_only : profile_reads_inputs_only toy.
Proof.
  intros d d' nbins (Hf & Hp & Hv & Ha). simpl. unfold toy_Profile_new.
  rewrite Hf, Hp, Hv, (Ha "phi"); [done|].
  unfold attached_after_profile. intros Hin.
  repeat (apply elem_of_cons in Hin as [?|Hin]; [done|]).
  by apply elem_of_nil in Hin.
Qed.

Lemma example_aligned_run_returns :
  exists pro w',
    decomp toy example_config_aligned (world_of example_aligned) = (inr pro, w').
Proof.
  destruct (decomp toy example_config_aligned (world_of example_aligned))
    as [[e|pro] w'] eqn:H.
  - exfalso.
    assert (Hok : match (decomp toy example_config_aligned
                           (world_of example_aligned)).1
                  with inr _ => true | inl _ => false end = true)
      by (vm_compute; reflexivity).
    by rewrite H in Hok.
  - eauto.
Defined.

Lemma C8_witness :
  exists pro w1 w2 labels,
    decomp toy example_config_aligned (world_of example_aligned) = (inr pro, w1)
    /\ decomp toy example_config_aligned w1 = (inr pro, w2)
    /\ star_arrays (sim w1) !! "decomp" = Some labels
    /\ star_arrays (sim w2) !! "decomp" = Some labels.
Proof.
  destruct example_aligned_run_returns as (pro & w1 & H).
  destruct (C8_second_run_gives_same_labels toy example_config_aligned
              _ pro w1 eq_refl toy_profile_reads_inputs_only H)
    as (w2 & labels & H2 & Hl1 & Hl2 & _).
  exists pro, w1, w2, labels.
  exact (conj H (conj H2 (conj Hl1 Hl2))).
Defined.

(* ================================================================== *)
(** * Runs of [decomp] that raise *)
(* ================================================================== *)

Lemma bind_raises {A B} (m : M A) (k : A -> M B) w e w1 :
  m w = (inl e, w1) -> bind m k w = (inl e, w1).
Proof. unfold bind. by intros ->. Qed.

(** [decomp] is its body run in the aligned frame, with the frame taken
    back afterwards. *)
Lemma decomp_run C cfg w tx :
  alignment C cfg (sim w) tx ->
  decomp C cfg w
  = with_tx tx (decomp_body C cfg)
      {| sim := aligned_frame tx (sim w); logged := logged w |}.
Proof.
  unfold alignment, decomp, aligned_frame. intros Htx.
  destruct (aligned cfg).
  - subst tx. eapply bind_returns; [reflexivity|]. simpl.
    rewrite set_frame_same. by destruct w.
  - eapply bind_returns; [|reflexivity].
    unfold apply_faceon. repeat run. reflexivity.
Qed.

Lemma with_tx_run {A} tx (body : M A) w r w1 :
  body w = (r, w1) ->
  with_tx tx body w
  = (r, {| sim := set_frame (backward tx (pos (sim w1), vel (sim w1))) (sim w1);
           logged := logged w1 |}).
Proof. unfold with_tx. by intros ->. Qed.

(** X1: without a potential [decomp] raises KeyError('phi') before it has
    attached or logged anything. *)
Theorem decomp_without_phi_raises C cfg w tx :
  alignment C cfg (sim w) tx ->
  arrays (sim w) !! "phi" = None ->
  exists w',
    decomp C cfg w = (inl (KeyError "phi"), w')
    /\ arrays (sim w') = arrays (sim w)
    /\ star_arrays (sim w') = star_arrays (sim w)
    /\ families (sim w') = families (sim w)
    /\ logged w' = logged w.
Proof.
  intros Htx Hphi. eexists. split.
  - rewrite (decomp_run _ _ _ _ Htx). apply with_tx_run.
    unfold decomp_body. run. apply bind_raises.
    unfold getitem, bind, get_sim, lift_opt. simpl. by rewrite Hphi.
  - done.
Qed.

Lemma decomp_without_phi_raises_witness :
  exists w',
    decomp toy example_config (world_of (without_field "phi" example_snapshot))
    = (inl (KeyError "phi"), w')
    /\ arrays (sim w') = arrays (without_field "phi" example_snapshot).
Proof.
  destruct (decomp_without_phi_raises toy example_config
              (world_of (without_field "phi" example_snapshot))
              (match toy_faceon example_snapshot "3 kpc" with
               | inr tx => tx | inl _ => NullTransformation end))
    as (w' & H & Ha & _).
  - reflexivity.
  - reflexivity.
  - exists w'. split; [exact H | exact Ha].
Defined.

(** X2: with a potential whose unit cannot be converted to that of the
    kinetic energy [decomp] raises UnitsException, again before it has
    attached or logged anything: the potential is still in the unit it
    came in. *)
Theorem decomp_phi_unit_mismatch_raises C cfg w tx phi0 :
  alignment C cfg (sim w) tx ->
  arrays (sim w) !! "phi" = Some phi0 ->
  same_dimension (units phi0)
    (units (derived_ke C (vel (aligned_frame tx (sim w))))) = false ->
  exists w',
    decomp C cfg w = (inl UnitsException, w')
    /\ arrays (sim w') = arrays (sim w)
    /\ star_arrays (sim w') = star_arrays (sim w)
    /\ families (sim w') = families (sim w)
    /\ logged w' = logged w.
Proof.
  intros Htx Hphi Hdim. eexists. split.
  - rewrite (decomp_run _ _ _ _ Htx). apply with_tx_run.
    unfold decomp_body. run. run. apply bind_raises.
    unfold aligned_frame in Hdim. simpl in Hdim.
    unfold lift, in_units, ratio. simpl. by rewrite Hdim.
  - done.
Qed.

Lemma decomp_phi_unit_mismatch_raises_witness :
  exists w',
    decomp toy example_config
      (world_of (with_field "phi" {| data := replicate 8 (F (-1) 1); units := kpc |}
                   example_snapshot))
    = (inl UnitsException, w').
Proof.
  destruct (decomp_phi_unit_mismatch_raises toy example_config
              (world_of (with_field "phi"
                           {| data := replicate 8 (F (-1) 1); units := kpc |}
                           example_snapshot))
              (match toy_faceon example_snapshot "3 kpc" with
               | inr tx => tx | inl _ => NullTransformation end)
              {| data := replicate 8 (F (-1) 1); units := kpc |})
    as (w' & H & _).
  - reflexivity.
  - reflexivity.
  - reflexivity.
  - exists w'. exact H.
Defined.

Lemma select_no_star {A} (fams : list family) (l : list A) :
  star ∉ fams -> select (map is_star fams) l = [].
Proof.
  revert l. induction fams as [|f fams IH]; intros [|x l] Hno; simpl; try done.
  destruct f; simpl.
  - exfalso. apply Hno, list_elem_of_here.
  - apply IH. intros ?. by apply Hno, list_elem_of_further.
  - apply IH. intros ?. by apply Hno, list_elem_of_further.
Qed.

Lemma select_some_star {A} (fams : list family) (l : list A) :
  select (map is_star fams) l <> [] -> star ∈ fams.
Proof.
  revert l. induction fams as [|f fams IH]; intros [|x l] Hne; simpl in *;
    try done.
  destruct f; simpl in *;
    first [ apply list_elem_of_here
          | apply list_elem_of_further; by eapply IH ].
Qed.

(** X3: on a snapshot without a single star [decomp] raises ValueError at
    [h.star['te'].max()] (line 119), and by then it has changed the
    snapshot: the potential is converted and [te] is attached, not yet
    shifted.  No label array has been created and nothing is logged. *)
Theorem decomp_without_stars_raises C cfg w tx phi0 pe :
  alignment C cfg (sim w) tx ->
  star ∉ families (sim w) ->
  arrays (sim w) !! "phi" = Some phi0 ->
  let ke := derived_ke C (vel (aligned_frame tx (sim w))) in
  in_units phi0 (units ke) = inr pe ->
  exists w',
    decomp C cfg w = (inl ValueError, w')
    /\ arrays (sim w')
       = <["te" := arr_add ke pe]> (<["phi" := pe]> (arrays (sim w)))
    /\ star_arrays (sim w') = star_arrays (sim w)
    /\ logged w' = logged w.
Proof.
  intros Htx Hno Hphi ke Hpe. eexists. split.
  - rewrite (decomp_run _ _ _ _ Htx). apply with_tx_run.
    unfold aligned_frame in *. simpl in ke, Hpe.
    unfold decomp_body. repeat run. apply bind_raises.
    unfold star_view, star_mask. simpl.
    by rewrite select_no_star.
  - done.
Qed.

Lemma decomp_without_stars_raises_witness :
  exists w',
    decomp toy example_config_aligned (world_of example_no_stars)
    = (inl ValueError, w')
    /\ is_Some (arrays (sim w') !! "te")
    /\ star_arrays (sim w') = ∅.
Proof.
  destruct (decomp_without_stars_raises toy example_config_aligned
              (world_of example_no_stars) NullTransformation
              {| data := [F (-10000000) 1; F (-10000000) 1; F (-8000000) 1;
                          F (-8000000) 1; F (-6000000) 1; F (-6000000) 1;
                          F (-5000000) 1; F (-5000000) 1];
                 units := m2_s2 |}
              {| data := map (fun x => fmul x (F 1 1000000))
                           [F (-10000000) 1; F (-10000000) 1; F (-8000000) 1;
                            F (-8000000) 1; F (-6000000) 1; F (-6000000) 1;
                            F (-5000000) 1; F (-5000000) 1];
                 units := km2_s2 |})
    as (w' & H & Ha & Hs & _).
  - reflexivity.
  - simpl. intros Hin.
    repeat (apply elem_of_cons in Hin as [?|Hin]; [done|]).
    by apply elem_of_nil in Hin.
  - reflexivity.
  - reflexivity.
  - exists w'. split; [exact H|]. split; [|exact Hs].
    rewrite Ha. rewrite lookup_insert_eq. by eexists.
Defined.

(** X4: with [particles_per_bin=0] on a snapshot that gets as far as the
    disc profile, [decomp] raises ZeroDivisionError at
    [len(d) // particles_per_bin] (line 135).  By then [te] is attached and
    shifted and two records are logged; no [j_circ] has been attached by
    this call and no label array created. *)
Theorem decomp_zero_particles_per_bin_raises C cfg w tx phi0 pe te_max eps eps_min :
  alignment C cfg (sim w) tx ->
  particles_per_bin cfg = 0 ->
  arrays (sim w) !! "phi" = Some phi0 ->
  let ke := derived_ke C (vel (aligned_frame tx (sim w))) in
  in_units phi0 (units ke) = inr pe ->
  amax (star_view (sim w) (data (arr_add ke pe))) = Some te_max ->
  arrays (sim w) !! "eps" = Some eps ->
  amin (data eps) = Some eps_min ->
  exists w',
    decomp C cfg w = (inl ZeroDivisionError, w')
    /\ arrays (sim w')
       = <["te" := arr_sub_scalar (arr_add ke pe) te_max]>
           (<["phi" := pe]> (arrays (sim w)))
    /\ star_arrays (sim w') = star_arrays (sim w)
    /\ logged w'
       = logged w
         ++ [ {| lvl := INFO; fmt := "te_max = %.2e"; args := [te_max] |};
              {| lvl := INFO; fmt := "Making disk rotation curve..."; args := [] |} ].
Proof.
  intros Htx Hppb Hphi ke Hpe Hmax Heps Hmin. eexists. split.
  - rewrite (decomp_run _ _ _ _ Htx). apply with_tx_run.
    unfold aligned_frame in *. simpl in ke, Hpe.
    unfold decomp_body. repeat run.
    rewrite Hppb. reflexivity.
  - simpl. split; [done|]. split; [done|]. by rewrite <- app_assoc.
Qed.

Lemma decomp_zero_particles_per_bin_raises_witness :
  exists w',
    decomp toy example_config_no_bins (world_of example_aligned)
    = (inl ZeroDivisionError, w')
    /\ is_Some (arrays (sim w') !! "te")
    /\ star_arrays (sim w') = ∅.
Proof.
  edestruct (decomp_zero_particles_per_bin_raises toy example_config_no_bins
               (world_of example_aligned) NullTransformation)
    as (w' & H & Ha & Hs & _).
  - reflexivity.
  - reflexivity.
  - reflexivity.
  - reflexivity.
  - reflexivity.
  - reflexivity.
  - reflexivity.
  - exists w'. split; [exact H|]. split; [|exact Hs].
    rewrite Ha, lookup_insert_eq. by eexists.
Defined.

(** X5: what a call of [decomp] that returns shows about its input: the
    snapshot holds at least one star, a potential and softening lengths,
    and [particles_per_bin] is not zero. *)
Theorem decomp_returns_only_if C cfg w pro w' :
  decomp C cfg w = (inr pro, w') ->
  star ∈ families (sim w)
  /\ is_Some (arrays (sim w) !! "phi")
  /\ is_Some (arrays (sim w) !! "eps")
  /\ particles_per_bin cfg <> 0.
Proof.
  intros H. apply decomp_inr in H as (tx & h_out & _ & Hret & _).
  destruct Hret as [phi0 pe te_max eps eps_min pro0 jc A ke Hphi Hpe Hmax te
                    Heps Hmin Hppb h_te d Hpro pro1 Hatt].
  split; [|by eauto].
  apply (select_some_star _ (data (arr_add ke pe))).
  unfold star_view, star_mask in Hmax.
  intros Hnil. change (families (set_frame _ (sim w))) with (families (sim w)) in Hmax.
  by rewrite Hnil in Hmax.
Qed.

Lemma decomp_returns_only_if_witness :
  star ∈ families example_snapshot
  /\ is_Some (arrays example_snapshot !! "phi").
Proof.
  destruct example_run_returns as (pro & w' & H).
  destruct (decomp_returns_only_if toy example_config _ pro w' H)
    as (Hs & Hphi & _).
  split; [exact Hs | exact Hphi].
Defined.

(* ================================================================== *)
(** * [estimate_jcirc_from_energy] raises or attaches, never half *)
(* ================================================================== *)



(* ================================================================== *)
(** * The labels a returning run leaves *)
(* ================================================================== *)





Lemma lookup_map {A B} (f : A -> B) (l : list A) (i : nat) :
  map f l !! i = f <$> (l !! i).
Proof. change (map f l) with (f <$> l). apply list_lookup_fmap. Qed.

(** The five rules for one star exclude one another once the ratio used
    in the second pass does not exceed [j_disk_min]. *)
Lemma rules_matched_at_most_one cfg E_cut j_crit e r :
  gtb j_crit (j_disk_min cfg) = false ->
  (rules_matched cfg E_cut j_crit e r <= 1)%nat.
Proof.
  unfold gtb. intros Hj.
  pose proof (ltb_asym r j_crit) as H1.
  pose proof (ltb_asym r (j_disk_min cfg)) as H2.
  pose proof (ltb_asym r (j_disk_max cfg)) as H3.
  pose proof (leb_not_ltb e E_cut) as H4.
  pose proof (ltb_trans (j_disk_min cfg) r j_crit) as H5.
  unfold rules_matched, in_disk_band, is_halo, is_bulge, is_thick, is_pbulge,
    out_of_band, gtb.
  destruct (ltb r j_crit), (ltb j_crit r), (ltb r (j_disk_min cfg)),
    (ltb (j_disk_min cfg) r), (ltb r (j_disk_max cfg)),
    (ltb (j_disk_max cfg) r), (leb e E_cut), (ltb E_cut e);
    simpl; try lia;
    first [ by specialize (H1 eq_refl) | by specialize (H2 eq_refl)
          | by specialize (H3 eq_refl) | by specialize (H4 eq_refl)
          | specialize (H5 eq_refl eq_refl); congruence ].
Qed.

Lemma masks_set_rules cfg E_cut j_crit te JzJcirc (i : nat) e r :
  te !! i = Some e -> JzJcirc !! i = Some r ->
  masks_set cfg E_cut j_crit te JzJcirc i = rules_matched cfg E_cut j_crit e r.
Proof.
  intros He Hr. unfold masks_set, mask_at, rules_matched.
  by rewrite (disk_mask_lookup _ _ _ _ Hr),
    (halo_mask_lookup _ _ _ _ _ _ _ He Hr),
    (bulge_mask_lookup _ _ _ _ _ _ _ He Hr),
    (thick_mask_lookup _ _ _ _ _ _ _ _ He Hr),
    (pbulge_mask_lookup _ _ _ _ _ _ _ _ He Hr).
Qed.

(** X8: the five masks exclude one another.  With a ratio [j_crit] that
    does not exceed [j_disk_min] (what lines 194-198 ensure), no entry is
    selected by more than one of the masks of lines 176 and 207-212,
    whatever the lengths of the arrays; so the order of the five
    assignments does not matter. *)
Theorem decomp_masks_exclusive cfg E_cut j_crit te JzJcirc (i : nat) :
  gtb j_crit (j_disk_min cfg) = false ->
  (masks_set cfg E_cut j_crit te JzJcirc i <= 1)%nat.
Proof.
  intros Hj.
  destruct (JzJcirc !! i) as [r|] eqn:Hr; [destruct (te !! i) as [e|] eqn:He|].
  - rewrite (masks_set_rules _ _ _ _ _ _ _ _ He Hr).
    by apply rules_matched_at_most_one.
  - unfold masks_set, mask_at, halo_mask, bulge_mask, thick_mask, pbulge_mask,
      mask_and.
    rewrite !lookup_zip_with, !lookup_map, He. simpl.
    destruct (default false _); simpl; lia.
  - unfold masks_set, mask_at, disk_mask, halo_mask, bulge_mask, thick_mask,
      pbulge_mask, outside_band, mask_and, mask_or.
    rewrite !lookup_zip_with, !lookup_map, Hr. simpl.
    destruct (te !! i); simpl; lia.
Qed.

Lemma decomp_masks_exclusive_witness :
  (masks_set default_config (F (-1) 1) (F 1 2)
     [F (-2) 1; F 0 1] [F 9 10; F 1 4] 0 <= 1)%nat.
Proof.
  apply (decomp_masks_exclusive default_config (F (-1) 1) (F 1 2)
           [F (-2) 1; F 0 1] [F 9 10; F 1 4] 0).
  reflexivity.
Defined.


(** Off the three thresholds, and with no NaN about, exactly one rule
    applies to a star. *)
Lemma rules_matched_off_edges cfg E_cut j_crit e r :
  gtb j_crit (j_disk_min cfg) = false ->
  is_nan e = false -> is_nan E_cut = false -> is_nan r = false ->
  is_nan j_crit = false ->
  is_nan (j_disk_min cfg) = false -> is_nan (j_disk_max cfg) = false ->
  r <> j_crit -> r <> j_disk_min cfg -> r <> j_disk_max cfg ->
  rules_matched cfg E_cut j_crit e r = 1%nat
  /\ forall p, 1 <= label_of cfg E_cut j_crit e r p <= 5.
Proof.
  unfold gtb. intros Hj He HE Hr Hjc Hmin Hmax N1 N2 N3.
  pose proof (ltb_asym r j_crit) as H1.
  pose proof (ltb_asym r (j_disk_min cfg)) as H2.
  pose proof (ltb_asym r (j_disk_max cfg)) as H3.
  pose proof (leb_not_ltb e E_cut) as H4.
  pose proof (ltb_trans (j_disk_min cfg) r j_crit) as H5.
  pose proof (not_ltb_leb E_cut e HE He) as H6.
  assert (T1 : ltb r j_crit = true \/ ltb j_crit r = true)
    by (destruct (ltb_total r j_crit Hr Hjc) as [?|[?|?]]; by auto).
  assert (T2 : ltb r (j_disk_min cfg) = true \/ ltb (j_disk_min cfg) r = true)
    by (destruct (ltb_total r (j_disk_min cfg) Hr Hmin) as [?|[?|?]]; by auto).
  assert (T3 : ltb r (j_disk_max cfg) = true \/ ltb (j_disk_max cfg) r = true)
    by (destruct (ltb_total r (j_disk_max cfg) Hr Hmax) as [?|[?|?]]; by auto).
  unfold rules_matched, label_of, in_disk_band, is_halo, is_bulge, is_thick,
    is_pbulge, out_of_band, gtb.
  destruct (ltb r j_crit), (ltb j_crit r), (ltb r (j_disk_min cfg)),
    (ltb (j_disk_min cfg) r), (ltb r (j_disk_max cfg)),
    (ltb (j_disk_max cfg) r), (leb e E_cut), (ltb E_cut e);
    simpl;
    try (split; [reflexivity | intros p; lia]);
    exfalso;
    first [ by specialize (H1 eq_refl) | by specialize (H2 eq_refl)
          | by specialize (H3 eq_refl) | by specialize (H4 eq_refl)
          | by specialize (H6 eq_refl)
          | by destruct T1 | by destruct T2 | by destruct T3
          | specialize (H5 eq_refl eq_refl); congruence ].
Qed.

(** X9: a star none of whose ratio, energy and thresholds is NaN, and
    whose ratio is none of [j_crit], [j_disk_min], [j_disk_max], is
    selected by exactly one of the five masks and ends with a label from
    1 to 5, whatever label it had. *)
Theorem decomp_off_edge_star_gets_one_label cfg E_cut j_crit te JzJcirc labels
    (i : nat) e r p :
  te !! i = Some e -> JzJcirc !! i = Some r -> labels !! i = Some p ->
  gtb j_crit (j_disk_min cfg) = false ->
  is_nan e = false -> is_nan E_cut = false -> is_nan r = false ->
  is_nan j_crit = false ->
  is_nan (j_disk_min cfg) = false -> is_nan (j_disk_max cfg) = false ->
  r <> j_crit -> r <> j_disk_min cfg -> r <> j_disk_max cfg ->
  masks_set cfg E_cut j_crit te JzJcirc i = 1%nat
  /\ exists l, classify_stars cfg E_cut j_crit te JzJcirc labels !! i = Some l
               /\ 1 <= l <= 5.
Proof.
  intros He Hr Hp Hj ? ? ? ? ? ? ? ? ?.
  destruct (rules_matched_off_edges cfg E_cut j_crit e r) as [R1 R2]; try done.
  split.
  - by rewrite (masks_set_rules _ _ _ _ _ _ _ _ He Hr).
  - eexists. split; [by apply classify_stars_lookup|]. apply R2.
Qed.

Lemma decomp_off_edge_star_gets_one_label_witness :
  exists l,
    classify_stars default_config (F (-1) 1) (F 1 2)
      [F (-2) 1; F 0 1] [F 9 10; F 1 4] [0; 0] !! 1%nat = Some l
    /\ 1 <= l <= 5.
Proof.
  destruct (decomp_off_edge_star_gets_one_label default_config (F (-1) 1) (F 1 2)
              [F (-2) 1; F 0 1] [F 9 10; F 1 4] [0; 0] 1 (F 0 1) (F 1 4) 0)
    as [_ H]; try reflexivity; try discriminate.
  exact H.
Defined.











Lemma ltb_not_nan_left (a b : float) : ltb a b = true -> is_nan a = false.
Proof. by destruct a, b. Qed.




(* ================================================================== *)
(** * The unit the potential is stored in *)
(* ================================================================== *)

(** X13: on an aligned snapshot, [decomp] does not depend on the unit the
    potential is stored in: with [phi] replaced beforehand by its
    conversion to the kinetic energy's unit, the call has the same
    outcome, leaves the same snapshot and logs the same records. *)
Theorem decomp_phi_unit_irrelevant C cfg w phi0 pe :
  aligned cfg = true ->
  arrays (sim w) !! "phi" = Some phi0 ->
  in_units phi0 (units (derived_ke C (vel (sim w)))) = inr pe ->
  decomp C cfg {| sim := with_field "phi" pe (sim w); logged := logged w |}
  = decomp C cfg w.
Proof.
  intros Hal Hphi Hpe.
  assert (Htx : forall h, alignment C cfg h NullTransformation)
    by (intros h; unfold alignment; by rewrite Hal).
  rewrite !(decomp_run _ _ _ _ (Htx _)).
  unfold with_tx, aligned_frame. simpl.
  assert (Hpe' : in_units pe (units (derived_ke C (vel (sim w)))) = inr pe).
  { rewrite <- (in_units_units _ _ _ Hpe) at 1. apply in_units_same. }
  match goal with
  | |- (let '(_, _) := ?a in _) = (let '(_, _) := ?b in _) =>
      assert (Heq : a = b); [|by rewrite Heq]
  end.
  unfold decomp_body.
  run. run. run. run.
  symmetry. run. run. run. run.
  reflexivity.
Qed.

Lemma decomp_phi_unit_irrelevant_witness :
  exists pe,
    in_units {| data := [F (-10000000) 1; F (-10000000) 1; F (-8000000) 1;
                         F (-8000000) 1; F (-6000000) 1; F (-6000000) 1;
                         F (-5000000) 1; F (-5000000) 1];
                units := m2_s2 |} km2_s2 = inr pe
    /\ decomp toy example_config_aligned
         (world_of (with_field "phi" pe example_aligned))
       = decomp toy example_config_aligned (world_of example_aligned).
Proof.
  eexists. split; [reflexivity|].
  apply (decomp_phi_unit_irrelevant toy example_config_aligned
           (world_of example_aligned)
           {| data := [F (-10000000) 1; F (-10000000) 1; F (-8000000) 1;
                       F (-8000000) 1; F (-6000000) 1; F (-6000000) 1;
                       F (-5000000) 1; F (-5000000) 1];
              units := m2_s2 |}); reflexivity.
Defined.

(* ================================================================== *)
(** * What a returning run logs *)
(* ================================================================== *)

(** The forward run of the body, with the records it logs. *)
Lemma decomp_body_returns_log C cfg w pro h' :
  decomp_returns C cfg (sim w) pro h' ->
  exists w' te_max j E,
    decomp_body C cfg w = (inr pro, w')
    /\ logged w'
       = logged w
         ++ [ {| lvl := INFO; fmt := "te_max = %.2e"; args := [te_max] |};
              {| lvl := INFO; fmt := "Making disk rotation curve..."; args := [] |};
              {| lvl := INFO;
                 fmt := "Finding spheroid/disk angular momentum boundary...";
                 args := [] |};
              {| lvl := INFO; fmt := "j_crit = %.2e"; args := [j] |} ]
         ++ (if gtb j (j_disk_min cfg)
             then [ {| lvl := WARNING;
                       fmt := "!! j_crit exceeds j_disk_min. This is usually a sign that something is going wrong (train-wreck galaxy?)";
                       args := [] |};
                    {| lvl := WARNING;
                       fmt := "!! j_crit will be reset to j_disk_min=%.2e";
                       args := [j_disk_min cfg] |} ]
             else [])
         ++ [ {| lvl := INFO; fmt := "E_cut = %.2e"; args := [E] |} ].
Proof.
  intros H.
  destruct H as [phi0 pe te_max eps eps_min pro0 jc A ke Hphi Hpe Hmax te
                 Heps Hmin Hppb h_te d Hpro pro1 Hatt jz JzJcirc te_star V j_crit E].
  eexists. exists te_max, (bisect C (F 0 1) (F 5 1) (objective V JzJcirc)), E.
  split.
  - unfold decomp_body. repeat run.
    destruct (particles_per_bin cfg =? 0) eqn:Hz; [by apply Z.eqb_eq in Hz|].
    repeat run.
    assert (A !! "j_circ" = Some jc /\ A !! "te" = Some te) as [HAj HAte].
    { destruct Hatt; subst te; simpl; by simplify_map_eq. }
    lazymatch goal with
    | |- bind ?m _ ?W = _ =>
        assert (Hblock : m W = (inr tt, {| sim := set_arrays A (sim W);
                                           logged := logged W |}))
    end.
    { destruct (j_circ_from_r cfg) eqn:Hr.
      - destruct Hatt as [_ jc|]; [|congruence]. repeat run. reflexivity.
      - apply j_circ_from_energy_returns with (te := te) (jc := jc);
          [done| |exact Hatt].
        simpl. by rewrite lookup_insert_eq. }
    eapply bind_returns; [exact Hblock|]. clear Hblock.
    cbv beta. norm_goal. repeat run.
    lazymatch goal with
    | |- bind ?m _ ?W = _ => assert (Hcut : m W = (inr E, W))
    end.
    { subst E te_star. destruct (E_cut cfg); [reflexivity|].
      repeat run. reflexivity. }
    eapply bind_returns; [exact Hcut|]. clear Hcut.
    cbv beta. repeat run. reflexivity.
  - simpl. fold ke. fold V. fold jz. fold JzJcirc.
    destruct (gtb _ (j_disk_min cfg)); simpl; by rewrite <- !app_assoc.
Qed.

(** X14: a call of [decomp] that returns appends to the log, in this
    order, the records [te_max], "Making disk rotation curve...",
    "Finding spheroid/disk angular momentum boundary...", [j_crit] with
    the solver's value, the two warnings exactly when that value exceeds
    [j_disk_min], and [E_cut]; nothing else, and nothing at any other
    level. *)
Theorem decomp_log_of_returning_run C cfg w pro w' :
  decomp C cfg w = (inr pro, w') ->
  exists te_max j E,
    logged w'
    = logged w
      ++ [ {| lvl := INFO; fmt := "te_max = %.2e"; args := [te_max] |};
           {| lvl := INFO; fmt := "Making disk rotation curve..."; args := [] |};
           {| lvl := INFO;
              fmt := "Finding spheroid/disk angular momentum boundary...";
              args := [] |};
           {| lvl := INFO; fmt := "j_crit = %.2e"; args := [j] |} ]
      ++ (if gtb j (j_disk_min cfg)
          then [ {| lvl := WARNING;
                    fmt := "!! j_crit exceeds j_disk_min. This is usually a sign that something is going wrong (train-wreck galaxy?)";
                    args := [] |};
                 {| lvl := WARNING;
                    fmt := "!! j_crit will be reset to j_disk_min=%.2e";
                    args := [j_disk_min cfg] |} ]
          else [])
      ++ [ {| lvl := INFO; fmt := "E_cut = %.2e"; args := [E] |} ].
Proof.
  intros H. pose proof H as H0.
  apply decomp_inr in H0 as (tx & h_out & Htx & Hret & _).
  apply (decomp_body_returns_log C cfg
           {| sim := aligned_frame tx (sim w); logged := logged w |}) in Hret
    as (w1 & te_max & j & E & Hbody & Hlog).
  fold (alignment C cfg (sim w) tx) in Htx.
  rewrite (decomp_run _ _ _ _ Htx), (with_tx_run _ _ _ _ _ Hbody) in H.
  apply (f_equal snd) in H. simpl in H. subst w'. simpl.
  exists te_max, j, E. exact Hlog.
Qed.

Lemma decomp_log_of_returning_run_witness :
  exists pro w',
    decomp toy example_config (world_of example_snapshot) = (inr pro, w')
    /\ (5 <= length (logged w'))%nat.
Proof.
  destruct example_run_returns as (pro & w' & H).
  destruct (decomp_log_of_returning_run toy example_config _ pro w' H)
    as (te_max & j & E & Hlog).
  exists pro, w'. split; [exact H|].
  rewrite Hlog. rewrite !length_app. destruct (gtb j _); simpl; lia.
Defined.

(* ================================================================== *)
(** * The rule behind each label *)
(* ================================================================== *)





(** X16: an empty band gives no disk.  When [j_disk_min] is not below
    [j_disk_max], no ratio lies strictly between them, so the five
    assignments give no star the label 1: a star that carries 1
    afterwards carried it before. *)
Theorem decomp_empty_band_labels_no_disk cfg E_cut j_crit te JzJcirc labels
    (i : nat) :
  ltb (j_disk_min cfg) (j_disk_max cfg) = false ->
  classify_stars cfg E_cut j_crit te JzJcirc labels !! i = Some 1 ->
  labels !! i = Some 1.
Proof.
  intros Hband. unfold classify_stars. rewrite !assign_where_lookup_total.
  assert (Hdisk : default false (disk_mask cfg JzJcirc !! i) = false).
  { unfold disk_mask, mask_and. rewrite lookup_zip_with, !lookup_map.
    destruct (JzJcirc !! i) as [r|]; simpl; [|done].
    unfold gtb. destruct (ltb (j_disk_min cfg) r) eqn:T1; [|done].
    destruct (ltb r (j_disk_max cfg)) eqn:T2; [|done].
    by rewrite (ltb_trans _ _ _ T1 T2) in Hband. }
  rewrite Hdisk. destruct (labels !! i) as [p|]; simpl; [|done].
  repeat destruct (default false _); by intros [= <-].
Qed.

Lemma decomp_empty_band_labels_no_disk_witness :
  classify_stars
    {| aligned := true; j_disk_min := F 11 10; j_disk_max := F 8 10;
       E_cut := None; j_circ_from_r := false; log_interp := false;
       angmom_size := "3 kpc"; particles_per_bin := 2 |}
    (F 0 1) (F 1 2) [F (-1) 1] [F 1 2] [1] !! 0%nat = Some 1
  /\ [1] !! 0%nat = Some 1.
Proof.
  split; [reflexivity|].
  apply (decomp_empty_band_labels_no_disk
           {| aligned := true; j_disk_min := F 11 10; j_disk_max := F 8 10;
              E_cut := None; j_circ_from_r := false; log_interp := false;
              angmom_size := "3 kpc"; particles_per_bin := 2 |}
           (F 0 1) (F 1 2) [F (-1) 1] [F 1 2] [1] 0); reflexivity.
Defined.
